(** * Verification of the audio-to-text pipeline of the NeMo Hindi ASR service

    Shallow embedding of [app/utils.py], [app/inference.py] and the
    [/transcribe] handler of [app/main.py].

    Python strings are sequences of Unicode code points; they are modelled
    as [list Z].  Python dicts keyed by integers are stdpp [gmap]s. *)

From Stdlib Require Import ZArith QArith Reals Lra List Ascii String Lia.
From stdpp Require Import base gmap list.

Import ListNotations.
Open Scope Z_scope.

(* ------------------------------------------------------------------ *)
(** ** Python strings *)

(** A Python [str]: its code points. *)
Abbreviation pystr := (list Z).

(** ASCII literal helper, to write Python string literals readably. *)
Fixpoint s2py (s : string) : pystr :=
  match s with
  | EmptyString => []
  | String c s' => Z.of_nat (nat_of_ascii c) :: s2py s'
  end.

(** [str.isspace] / [Py_UNICODE_ISSPACE]: the whitespace used by
    [str.split()] and [str.strip()] without arguments. *)
Definition py_isspace (c : Z) : bool :=
  ((9 <=? c) && (c <=? 13)) || ((28 <=? c) && (c <=? 32))
  || (c =? 133) || (c =? 160) || (c =? 5760)
  || ((8192 <=? c) && (c <=? 8202))
  || (c =? 8232) || (c =? 8233) || (c =? 8239) || (c =? 8287)
  || (c =? 12288).

Fixpoint py_lstrip (s : pystr) : pystr :=
  match s with
  | [] => []
  | c :: s' => if py_isspace c then py_lstrip s' else s
  end.

(** [str.strip()] *)
Definition py_strip (s : pystr) : pystr := rev (py_lstrip (rev (py_lstrip s))).

(** [str.split()] with no argument: maximal runs of non-whitespace.
    [py_split_go s] returns the word that begins [s] (possibly empty)
    and the words after it. *)
Definition cons_word (w : pystr) (ws : list pystr) : list pystr :=
  match w with [] => ws | _ => w :: ws end.

Fixpoint py_split_go (s : pystr) : pystr * list pystr :=
  match s with
  | [] => ([], [])
  | c :: s' =>
      let '(w, ws) := py_split_go s' in
      if py_isspace c then ([], cons_word w ws) else (c :: w, ws)
  end.

Definition py_split (s : pystr) : list pystr :=
  let '(w, ws) := py_split_go s in cons_word w ws.

(** [sep.join(words)] *)
Fixpoint py_join (sep : pystr) (ws : list pystr) : pystr :=
  match ws with
  | [] => []
  | [w] => w
  | w :: ws' => w ++ sep ++ py_join sep ws'
  end.

(** [str.split(sep, 1)] for a one-character separator. *)
Fixpoint py_split_once (sep : Z) (s : pystr) : list pystr :=
  match s with
  | [] => [[]]
  | c :: s' =>
      if c =? sep then [[]; s']
      else match py_split_once sep s' with
           | w :: rest => (c :: w) :: rest
           | [] => [[c]]
           end
  end.

(** [int(s)] for a [str] argument in base 10, as CPython 3.11 computes
    it ([PyLong_FromUnicodeObject]): the string is first mapped to ASCII
    ([_PyUnicode_TransformDecimalAndSpaceToASCII]), then parsed by
    [PyLong_FromString]: ASCII whitespace around, an optional sign,
    digits with single underscores between digits, and at most 4300
    digits (the default [sys.get_int_max_str_digits()]).  Every failure
    is a [ValueError]. *)

(** The first code point of each run of ten Unicode decimal digits
    (general category Nd, Unicode 14.0, the database of Python 3.11);
    the digit [k] of a run starting at [z] is [z + k]. *)
Definition nd_starts : list Z :=
  [48; 1632; 1776; 1984; 2406; 2534; 2662; 2790; 2918; 3046; 3174; 3302;
   3430; 3558; 3664; 3792; 3872; 4160; 4240; 6112; 6160; 6470; 6608; 6784;
   6800; 6992; 7088; 7232; 7248; 42528; 43216; 43264; 43472; 43504; 43600;
   44016; 65296; 66720; 68912; 69734; 69872; 69942; 70096; 70384; 70736;
   70864; 71248; 71360; 71472; 71904; 72016; 72784; 73040; 73120; 92768;
   92864; 93008; 120782; 120792; 120802; 120812; 120822; 123200; 123632;
   125264; 130032].

(** [Py_UNICODE_TODECIMAL]: the value of a decimal digit, or none. *)
Definition unicode_decimal (c : Z) : option Z :=
  match List.find (fun z => (z <=? c) && (c <? z + 10)) nd_starts with
  | Some z => Some (c - z)
  | None => None
  end.

(** [_PyUnicode_TransformDecimalAndSpaceToASCII]: an ASCII string is
    kept as it is; otherwise each code point below 127 is kept, other
    whitespace becomes ' ', a decimal digit becomes its ASCII digit, and
    any other code point becomes '?' and ends the string. *)
Fixpoint transform_decimal_and_space (s : pystr) : pystr :=
  match s with
  | [] => []
  | c :: s' =>
      if c <? 127 then c :: transform_decimal_and_space s'
      else if py_isspace c then 32 :: transform_decimal_and_space s'
      else match unicode_decimal c with
           | Some d => (48 + d) :: transform_decimal_and_space s'
           | None => [63]
           end
  end.

Definition to_ascii_digits (s : pystr) : pystr :=
  if forallb (fun c => c <? 128) s then s else transform_decimal_and_space s.

(** [Py_ISSPACE]: the ASCII whitespace [PyLong_FromString] skips. *)
Definition c_isspace (c : Z) : bool := (c =? 32) || ((9 <=? c) && (c <=? 13)).

Fixpoint c_lstrip (s : pystr) : pystr :=
  match s with
  | [] => []
  | c :: s' => if c_isspace c then c_lstrip s' else s
  end.

Definition c_strip (s : pystr) : pystr := rev (c_lstrip (rev (c_lstrip s))).

Definition is_digit (c : Z) : bool := (48 <=? c) && (c <=? 57).

(** The digits of [PyLong_FromString] in base 10: a digit, then digits
    with at most one underscore between two of them. *)
Fixpoint parse_digits (acc : Z) (after_digit : bool) (s : pystr) : option Z :=
  match s with
  | [] => if after_digit then Some acc else None
  | c :: s' =>
      if is_digit c then parse_digits (acc * 10 + (c - 48)) true s'
      else if (c =? 95) && after_digit then
        match s' with
        | d :: _ => if is_digit d then parse_digits acc false s' else None
        | [] => None
        end
      else None
  end.

(** [sys.get_int_max_str_digits()] by default. *)
Definition INT_MAX_STR_DIGITS : nat := 4300.

(** The digits part, with the limit on the number of digits. *)
Definition parse_number (r : pystr) : option Z :=
  if Nat.leb (length (List.filter is_digit r)) INT_MAX_STR_DIGITS
  then parse_digits 0 false r else None.

Definition py_int (s : pystr) : option Z :=
  match c_strip (to_ascii_digits s) with
  | 43 :: r => parse_number r
  | 45 :: r => option_map Z.opp (parse_number r)
  | r => parse_number r
  end.

(* ------------------------------------------------------------------ *)
(** ** Vocabulary table and CTC decoding ([decode_tokens], utils.py) *)

(** [Dict[int, str]] *)
Abbreviation token_map_t := (gmap Z pystr).

(** [max(xs)] of a non-empty Python iterable. *)
Definition py_max (x : Z) (xs : list Z) : Z := foldl Z.max x xs.

(** [max(token_map.keys()) if token_map else 128] *)
Definition blank_token_id (token_map : token_map_t) : Z :=
  match map_to_list token_map with
  | [] => 128
  | (k, _) :: kvs => py_max k (map fst kvs)
  end.

(** The [for token_id in token_ids] loop: [prev_token] is [None] or the
    last non-blank id seen; [decoded_tokens] grows by [append]. *)
Fixpoint decode_loop (token_map : token_map_t) (blank : Z)
    (token_ids : list Z) (prev_token : option Z) (decoded_tokens : list pystr)
    : list pystr :=
  match token_ids with
  | [] => decoded_tokens
  | token_id :: rest =>
      if token_id =? blank then
        decode_loop token_map blank rest None decoded_tokens
      else if bool_decide (prev_token = Some token_id) then
        decode_loop token_map blank rest prev_token decoded_tokens
      else
        let decoded_tokens' :=
          match token_map !! token_id with
          | Some tok => decoded_tokens ++ [tok]
          | None => decoded_tokens          (* logger.warning *)
          end in
        decode_loop token_map blank rest (Some token_id) decoded_tokens'
  end.

(** [decode_tokens(token_ids, token_map)] *)
Definition decode_tokens (token_ids : list Z) (token_map : token_map_t) : pystr :=
  if bool_decide (size token_map = 0%nat) then []
  else
    let blank_token_id := blank_token_id token_map in
    concat (decode_loop token_map blank_token_id token_ids None []).

(** Devanagari letters used in the examples: U+0905 and U+092C. *)
Definition DEV_A : pystr := [2309].
Definition DEV_BA : pystr := [2348].

Definition table_5_2 : token_map_t := <[5 := DEV_A]> (<[2 := DEV_BA]> ∅).

(** Greedy CTC collapse as the specification words it (section 4.3):
    a fold over the frames carrying [previous] and the output string. *)
Record ctc_state := { previous : option Z; output : pystr }.

Definition ctc_step (blank : Z) (table : token_map_t) (st : ctc_state) (id : Z)
    : ctc_state :=
  if id =? blank then {| previous := None; output := output st |}
  else if bool_decide (previous st = Some id) then st
  else {| previous := Some id;
          output := output st ++ default [] (table !! id) |}.

Definition ctc_decode_spec (blank : Z) (table : token_map_t) (ids : list Z) : pystr :=
  output (fold_left (ctc_step blank table) ids {| previous := None; output := [] |}).

(** "the blank id is the maximum id present in the table" *)
Definition is_max_key (table : token_map_t) (b : Z) : Prop :=
  is_Some (table !! b) /\ forall k, is_Some (table !! k) -> k <= b.

(** No two consecutive frames carry the same id. *)
Fixpoint no_adj_dup (ids : list Z) : bool :=
  match ids with
  | x :: ((y :: _) as rest) => negb (x =? y) && no_adj_dup rest
  | _ => true
  end.

(** The ids of a list that the table maps, replaced by their tokens. *)
Definition mapped_tokens (table : token_map_t) (ids : list Z) : list pystr :=
  omap (fun id => table !! id) ids.

(* ------------------------------------------------------------------ *)
(** ** Loading the vocabulary file ([load_token_map], utils.py) *)

(** What [token_file] holds: absent ([os.path.exists] false), its lines
    as [async for line in f] yields them, or unreadable (an exception
    while opening or reading, e.g. invalid UTF-8). *)
Inductive token_file :=
  | TFMissing
  | TFLines (lines : list pystr)
  | TFUnreadable.

(** The body of the inner [try]: [parts = line.split(' ', 1)];
    [if len(parts) == 2: token, idx = parts; token_map[int(idx)] = token].
    [None] when nothing is stored (no space, or [int(idx)] raises
    [ValueError]). *)
Definition parse_token_line (line : pystr) : option (Z * pystr) :=
  match py_split_once 32 line with
  | [token; idx] =>
      match py_int idx with
      | Some i => Some (i, token)
      | None => None
      end
  | _ => None
  end.

(** One iteration of the loop: [line = line.strip(); if line: ...]. *)
Definition load_step (token_map : token_map_t) (line : pystr) : token_map_t :=
  let line := py_strip line in
  match line with
  | [] => token_map
  | _ =>
      match parse_token_line line with
      | Some (i, token) => <[i := token]> token_map
      | None => token_map
      end
  end.

(** [load_token_map(token_file)] *)
Definition load_token_map (f : token_file) : token_map_t :=
  match f with
  | TFMissing => ∅
  | TFLines lines => fold_left load_step lines ∅
  | TFUnreadable => ∅
  end.

(** The entry a line stores, if any ([strip] followed by the parse). *)
Definition line_entry (line : pystr) : option (Z * pystr) :=
  match py_strip line with
  | [] => None
  | l => parse_token_line l
  end.

(* ------------------------------------------------------------------ *)
(** ** Post-processing ([ASRInference._post_process_text], inference.py) *)

Definition NO_SPEECH : pystr := s2py "[No speech detected]".

(** [text = ' '.join(text.split())];
    [if not text.strip(): return "[No speech detected]"];
    [return text.strip()] *)
Definition post_process_text (text : pystr) : pystr :=
  let text := py_join (s2py " ") (py_split text) in
  match py_strip text with
  | [] => NO_SPEECH
  | _ => py_strip text
  end.

(** Whitespace normalisation as the specification words it: every run of
    whitespace becomes a single space, then both ends are trimmed. *)
Definition starts_with_space (s : pystr) : bool :=
  match s with c :: _ => c =? 32 | [] => false end.

Fixpoint collapse_ws (s : pystr) : pystr :=
  match s with
  | [] => []
  | c :: s' =>
      let r := collapse_ws s' in
      if py_isspace c then (if starts_with_space r then r else 32 :: r)
      else c :: r
  end.

Definition normalize_ws_spec (s : pystr) : pystr := py_strip (collapse_ws s).

(* ------------------------------------------------------------------ *)
(** ** Effects: observable calls and Python exceptions *)

(** The calls whose occurrence the claims talk about. *)
Inductive event :=
  | EvAudioLoad      (* librosa.load *)
  | EvPreprocess     (* preprocess_audio: feature extraction *)
  | EvInfer          (* session.run on the worker pool *)
  | EvLoadTokens     (* load_token_map *)
  | EvDecode.        (* decode_tokens *)

(** The exceptions that can reach the handlers. *)
Inductive py_exc :=
  | ExcAudioLoad                         (* librosa.load raises *)
  | ExcInference                         (* session.run raises *)
  | ExcHTTP (status : Z) (detail : pystr).  (* fastapi.HTTPException *)

(** A computation: the calls it made, and its value or the exception it
    raised. *)
Definition M (A : Type) : Type := (list event * (py_exc + A))%type.

Global Instance M_ret : MRet M := fun A a => ([], inr a).
Global Instance M_bind : MBind M := fun A B f m =>
  match m with
  | (evs, inl e) => (evs, inl e)
  | (evs, inr a) => let '(evs', r) := f a in (evs ++ evs', r)
  end.

Definition raise {A} (e : py_exc) : M A := ([], inl e).
Definition emit (ev : event) : M unit := ([ev], inr tt).

(** [try: m except ...: handler(e)] *)
Definition try_except {A} (m : M A) (handler : py_exc -> M A) : M A :=
  match m with
  | (evs, inl e) => let '(evs', r) := handler e in (evs ++ evs', r)
  | _ => m
  end.

(* ------------------------------------------------------------------ *)
(** ** Audio loading and duration validation ([validate_audio]) *)

(** An uploaded audio file as [librosa.load(path, sr=16000)] sees it:
    decodable, with that many samples at 16 kHz, or not decodable. *)
Inductive audio_file :=
  | AudioOK (nsamples : N)
  | AudioBad.

Definition SAMPLE_RATE : Z := 16000.

(** [librosa.load(p, sr=16000)] *)
Definition librosa_load (f : audio_file) : M N :=
  emit EvAudioLoad;;
  match f with
  | AudioOK n => mret n
  | AudioBad => raise ExcAudioLoad
  end.

(** [librosa.get_duration(y=y, sr=sr)]: [len(y) / sr] seconds. *)
Definition audio_duration (nsamples : N) : Q := Z.of_N nsamples # Z.to_pos SAMPLE_RATE.

(** [validate_audio(path)] *)
Definition validate_audio (f : audio_file) : M bool :=
  try_except
    (y ← librosa_load f;
     let duration := audio_duration y in
     let is_valid := Qle_bool 5 duration && Qle_bool duration 10 in
     mret is_valid)
    (fun _ => mret false).

(* ------------------------------------------------------------------ *)
(** ** The transcription pipeline ([ASRInference.transcribe]) *)

(** [preprocess_audio(path)]: the feature tensor is represented here by
    its time length [T] (the numeric content is modelled in module
    [Features] below); with centred framing and hop 160, [T = 1 + n / 160]. *)
Definition preprocess_audio (f : audio_file) : M N :=
  emit EvPreprocess;;
  samples ← librosa_load f;
  mret (1 + samples / 160)%N.

(** The loaded ONNX session: from the input tensor (of time length [T])
    to the logits rows, one row of scores per output frame, or a
    runtime failure. *)
Definition onnx_session : Type := N -> option (list (list Z)).

(** [_run_inference]: [session.run] on the worker pool. *)
Definition run_inference (session : onnx_session) (input_tensor : N) : M (list (list Z)) :=
  emit EvInfer;;
  match session input_tensor with
  | Some logits => mret logits
  | None => raise ExcInference
  end.

(** [np.argmax] of one row: the first index of the maximum (numpy
    raises on an empty row, which a vocabulary of size V > 0 excludes). *)
Fixpoint argmax_go (best_i best_v i : Z) (row : list Z) : Z :=
  match row with
  | [] => best_i
  | v :: row' =>
      if best_v <? v then argmax_go i v (i + 1) row'
      else argmax_go best_i best_v (i + 1) row'
  end.

Definition np_argmax (row : list Z) : Z :=
  match row with
  | [] => 0
  | v :: row' => argmax_go 0 v 1 row'
  end.

(** [ASRInference.transcribe(audio_path)]; [token_map_cache] is
    [self.token_map], loaded on first use and returned updated.  The
    [except: raise] around the body re-raises unchanged. *)
Definition asr_transcribe (session : onnx_session) (tokens : token_file)
    (token_map_cache : option token_map_t) (audio_path : audio_file)
    : M (pystr * option token_map_t) :=
  input_tensor ← preprocess_audio audio_path;
  logits ← run_inference session input_tensor;
  let decoded_ids := map np_argmax logits in
  token_map ← match token_map_cache with
              | Some tm => mret tm
              | None => emit EvLoadTokens;; mret (load_token_map tokens)
              end;
  emit EvDecode;;
  let transcription := decode_tokens decoded_ids token_map in
  mret (post_process_text transcription, Some token_map).

(* ------------------------------------------------------------------ *)
(** ** The [/transcribe] endpoint (main.py) *)

(** [str.lower()] (ASCII letters; other letters are not modelled). *)
Definition py_lower (s : pystr) : pystr :=
  map (fun c => if (65 <=? c) && (c <=? 90) then c + 32 else c) s.

Fixpoint is_prefix (p s : pystr) : bool :=
  match p, s with
  | [], _ => true
  | a :: p', b :: s' => (a =? b) && is_prefix p' s'
  | _ :: _, [] => false
  end.

(** [needle in hay] *)
Fixpoint py_contains (needle hay : pystr) : bool :=
  is_prefix needle hay ||
  match hay with [] => false | _ :: hay' => py_contains needle hay' end.

(** [s.endswith(suffix)] *)
Definition py_endswith (s suffix : pystr) : bool := is_prefix (rev suffix) (rev s).

(** The [UploadFile]: its declared content type and name, the size of
    [await file.read()], and the audio it holds. *)
Record upload := {
  content_type : option pystr;
  filename : option pystr;
  content_len : Z;
  upload_audio : audio_file
}.

Definition MAX_UPLOAD_BYTES : Z := 10 * 1024 * 1024.

Definition http_400 {A} (detail : string) : M A := raise (ExcHTTP 400 (s2py detail)).

(** [transcribe(background_tasks, file)]: the checks of the handler, the
    duration gate, then [transcribe_audio].  The statistics counters and
    the temporary-file bookkeeping are not modelled. *)
Definition transcribe_endpoint (session : onnx_session) (tokens : token_file)
    (token_map_cache : option token_map_t) (file : upload)
    : M (pystr * option token_map_t) :=
  try_except
    ((match content_type file with
      | Some ct => if py_contains (s2py "audio") (py_lower ct) then mret tt
                   else http_400 "Invalid file type. Only audio files are supported."
      | None => http_400 "Invalid file type. Only audio files are supported."
      end : M unit);;
     (match filename file with
      | Some fn => if py_endswith (py_lower fn) (s2py ".wav") then mret tt
                   else http_400 "Only .wav files are supported"
      | None => http_400 "Only .wav files are supported"
      end : M unit);;
     (if MAX_UPLOAD_BYTES <? content_len file
      then http_400 "File too large. Maximum size is 10MB." else mret tt : M unit);;
     duration_valid ← validate_audio (upload_audio file);
     (if (duration_valid : bool) then mret tt
      else http_400 "Audio duration must be between 5-10 seconds" : M unit);;
     asr_transcribe session tokens token_map_cache (upload_audio file))
    (fun e => match e with
              | ExcHTTP status detail => raise (ExcHTTP status detail)
              | _ => raise (ExcHTTP 500 (s2py "Internal server error during transcription"))
              end).

(** A session whose every output frame scores id 1 highest (the blank of
    [demo_tokens]). *)
Definition blank_session : onnx_session :=
  fun T => Some (repeat [0; 5] (N.to_nat T)).

Definition demo_tokens : token_file := TFLines [s2py "a 0"; s2py "<blk> 1"].

Definition wav_upload (a : audio_file) : upload := {|
  content_type := Some (s2py "audio/wav");
  filename := Some (s2py "clip.WAV");
  content_len := 384044;
  upload_audio := a
|}.

(** The running statistics of main.py ([stats]): request counters and
    the average processing time (floating point rounding not modelled). *)
Record stats_t := {
  total_requests : Z;
  successful_transcriptions : Z;
  failed_transcriptions : Z;
  average_processing_time : Q
}.

Definition stats0 : stats_t := {|
  total_requests := 0; successful_transcriptions := 0;
  failed_transcriptions := 0; average_processing_time := 0
|}.

(** The statistics updates of [transcribe]: [total_requests += 1] on
    entry; on success [successful_transcriptions += 1] and the running
    average [(avg * (n - 1) + processing_time) / n]; on either [except]
    branch [failed_transcriptions += 1]. *)
Definition record_request (st : stats_t) (succeeded : bool) (processing_time : Q)
    : stats_t :=
  let total := total_requests st + 1 in
  if succeeded then
    let n := successful_transcriptions st + 1 in
    {| total_requests := total;
       successful_transcriptions := n;
       failed_transcriptions := failed_transcriptions st;
       average_processing_time :=
         (average_processing_time st * inject_Z (n - 1) + processing_time)
         / inject_Z n |}
  else
    {| total_requests := total;
       successful_transcriptions := successful_transcriptions st;
       failed_transcriptions := failed_transcriptions st + 1;
       average_processing_time := average_processing_time st |}.

(** The process state the handler reads and updates: the [stats] dict
    and the [token_map] attribute of the [ASRInference] singleton.  (The
    singleton's ONNX session is the [session] argument; a failure of its
    construction is not modelled.) *)
Record service := {
  stats : stats_t;
  token_cache : option token_map_t
}.

Definition service0 : service := {| stats := stats0; token_cache := None |}.

(** One request to [POST /transcribe]: the upload, and the
    [time.time() - start_time] the request measures. *)
Definition handle_request (session : onnx_session) (tokens : token_file)
    (sv : service) (file : upload) (processing_time : Q)
    : list event * (py_exc + pystr) * service :=
  let '(evs, r) := transcribe_endpoint session tokens (token_cache sv) file in
  match r with
  | inr (text, cache') =>
      (evs, inr text,
       {| stats := record_request (stats sv) true processing_time;
          token_cache := cache' |})
  | inl e =>
      (evs, inl e,
       {| stats := record_request (stats sv) false processing_time;
          token_cache := token_cache sv |})
  end.

(** A sequence of requests served by one process. *)
Fixpoint serve (session : onnx_session) (tokens : token_file) (sv : service)
    (reqs : list (upload * Q)) : list event * list (py_exc + pystr) * service :=
  match reqs with
  | [] => ([], [], sv)
  | (file, t) :: reqs' =>
      let '(evs, r, sv') := handle_request session tokens sv file t in
      let '(evs', rs, sv'') := serve session tokens sv' reqs' in
      (evs ++ evs', r :: rs, sv'')
  end.

Global Instance event_eq_dec : EqDecision event.
Proof. solve_decision. Defined.

(** How many times a run reads the token file. *)
Definition token_file_reads (evs : list event) : nat :=
  length (filter (fun ev => ev = EvLoadTokens) evs).

(** The sum of the processing times of the requests that succeeded. *)
Fixpoint success_time_total (reqs : list (upload * Q)) (rs : list (py_exc + pystr)) : Q :=
  match reqs, rs with
  | (_, t) :: reqs', inr _ :: rs' => t + success_time_total reqs' rs'
  | _ :: reqs', inl _ :: rs' => success_time_total reqs' rs'
  | _, _ => 0
  end.

(* ------------------------------------------------------------------ *)
(** ** The vocabulary file written by [export()] (model/export_to_onnx.py) *)

(** [str(n)] for an int [n >= 0]: its decimal digits, most significant
    first.  [fuel] only bounds the recursion; [n + 1] steps always
    suffice since each step divides [n] by 10. *)
Fixpoint py_str_go (fuel : nat) (n : Z) (acc : pystr) : pystr :=
  match fuel with
  | O => acc
  | S fuel' =>
      let acc' := (48 + n mod 10) :: acc in
      if n <? 10 then acc' else py_str_go fuel' (n / 10) acc'
  end.

Definition py_str (n : Z) : pystr := py_str_go (S (Z.to_nat n)) n [].

(** The lines of [tokens.txt] as [export()] writes them and
    [async for line in f] reads them back: [f"{s} {i}\n"] for each
    [i, s] of [enumerate(vocab)], then [f"<blk> {len(vocab)}\n"]. *)
Definition export_lines (vocab : list pystr) : list pystr :=
  imap (fun i s => s ++ [32] ++ py_str (Z.of_nat i) ++ [10]) vocab
  ++ [s2py "<blk>" ++ [32] ++ py_str (Z.of_nat (length vocab)) ++ [10]].

(** [int(ds)] for a string of decimal digits, accumulated from [acc]. *)
Definition digits_val (acc : Z) (ds : pystr) : Z :=
  fold_left (fun a c => a * 10 + (c - 48)) ds acc.

(** A vocabulary entry that [export()] writes and [load_token_map] reads
    back unchanged: non-empty and without whitespace. *)
Definition nonspace_token (s : pystr) : Prop :=
  s <> [] /\ Forall (fun c => py_isspace c = false) s.

(* ------------------------------------------------------------------ *)
(** ** The checks of [transcribe(background_tasks, file)], one by one *)

(** [file.content_type and 'audio' in file.content_type.lower()] *)
Definition content_type_ok (file : upload) : bool :=
  match content_type file with
  | Some ct => py_contains (s2py "audio") (py_lower ct)
  | None => false
  end.

(** [file.filename and file.filename.lower().endswith('.wav')] *)
Definition filename_ok (file : upload) : bool :=
  match filename file with
  | Some fn => py_endswith (py_lower fn) (s2py ".wav")
  | None => false
  end.

Definition DURATION_MSG : pystr := s2py "Audio duration must be between 5-10 seconds".
Definition INTERNAL_MSG : pystr := s2py "Internal server error during transcription".

(** The detail of the first of the three upload checks that fails. *)
Definition upload_precheck (file : upload) : option pystr :=
  if negb (content_type_ok file) then
    Some (s2py "Invalid file type. Only audio files are supported.")
  else if negb (filename_ok file) then Some (s2py "Only .wav files are supported")
  else if MAX_UPLOAD_BYTES <? content_len file then
    Some (s2py "File too large. Maximum size is 10MB.")
  else None.

(** The test of [validate_audio] on a decodable file of [n] samples. *)
Definition duration_ok (n : N) : bool :=
  Qle_bool 5 (audio_duration n) && Qle_bool (audio_duration n) 10.

(** The [except HTTPException: raise] / [except Exception] clauses. *)
Definition as_http_500 {A} (r : py_exc + A) : py_exc + A :=
  match r with
  | inl (ExcHTTP st d) => inl (ExcHTTP st d)
  | inl _ => inl (ExcHTTP 500 INTERNAL_MSG)
  | inr v => inr v
  end.

(** [k] is the first index of a maximum of [row]. *)
Definition first_max (row : list Z) (k : Z) : Prop :=
  0 <= k < Z.of_nat (length row) /\
  exists m, row !! Z.to_nat k = Some m /\
    forall j v, row !! j = Some v -> v <= m /\ ((j < Z.to_nat k)%nat -> v < m).

(** The upload of [test_invalid_file_type] (app/test.py). *)
Definition text_upload : upload := {|
  content_type := Some (s2py "text/plain");
  filename := Some (s2py "test.txt");
  content_len := 25;
  upload_audio := AudioBad
|}.

(** An MP3 upload: an audio content type, but not a .wav name. *)
Definition mp3_upload : upload := {|
  content_type := Some (s2py "audio/mpeg");
  filename := Some (s2py "clip.mp3");
  content_len := 96000;
  upload_audio := AudioOK 96000
|}.

(** A .wav upload of 11 MiB. *)
Definition large_upload : upload := {|
  content_type := Some (s2py "audio/wav");
  filename := Some (s2py "long.wav");
  content_len := 11 * 1024 * 1024;
  upload_audio := AudioOK 96000
|}.

(** A session whose [session.run] always fails. *)
Definition failing_session : onnx_session := fun _ => None.


(* ------------------------------------------------------------------ *)
(** ** Feature extraction ([preprocess_audio], numeric content)

    The numeric pipeline of [preprocess_audio] over exact real numbers:
    [samples * 32768.0], [librosa.feature.melspectrogram] (periodic Hann
    window of 400 padded to 512, centred framing with constant padding,
    hop 160, power 2, 80 Slaney mel filters with Slaney normalisation),
    [librosa.power_to_db(ref=np.max)] (amin 1e-10, top_db 80) and the
    per-band normalisation.  Floating-point rounding and the final
    float32 cast are not modelled.  Matrices are lists of rows. *)
Module Features.
Local Open Scope R_scope.

Definition Rsum (l : list R) : R := fold_right Rplus 0 l.

Definition SR : R := 16000.
Definition N_FFT : nat := 512.
Definition WIN_LENGTH : nat := 400.
Definition HOP_LENGTH : nat := 160.
Definition N_MELS : nat := 80.
Definition N_BINS : nat := 257.   (* 1 + n_fft // 2 *)

(** [samples = samples * 32768.0] *)
Definition scale (samples : list R) : list R := map (fun x => x * 32768) samples.

(** [scipy.signal.get_window('hann', 400, fftbins=True)] *)
Definition hann (n : nat) : R := 1/2 - 1/2 * cos (2 * PI * INR n / INR WIN_LENGTH).

(** [util.pad_center(fft_window, size=512)] *)
Definition fft_window : list R :=
  repeat 0 56 ++ map hann (seq 0 WIN_LENGTH) ++ repeat 0 56.

(** [np.pad(y, n_fft // 2, mode='constant')] *)
Definition y_pad (y : list R) : list R := repeat 0 256 ++ y ++ repeat 0 256.

Definition n_frames (y : list R) : nat :=
  1 + (length (y_pad y) - N_FFT) / HOP_LENGTH.

Definition frame (y : list R) (t : nat) : list R :=
  firstn N_FFT (skipn (HOP_LENGTH * t) (y_pad y)).

(** Real and imaginary part of [np.fft.rfft(fft_window * frame)] at bin [k]. *)
Definition stft_re (y : list R) (k t : nat) : R :=
  Rsum (map (fun n => nth n fft_window 0 * nth n (frame y t) 0
                      * cos (2 * PI * INR k * INR n / INR N_FFT)) (seq 0 N_FFT)).
Definition stft_im (y : list R) (k t : nat) : R :=
  - Rsum (map (fun n => nth n fft_window 0 * nth n (frame y t) 0
                        * sin (2 * PI * INR k * INR n / INR N_FFT)) (seq 0 N_FFT)).

(** [np.abs(stft) ** 2]: rows are frequency bins, columns frames. *)
Definition power_spec (y : list R) : list (list R) :=
  map (fun k => map (fun t => stft_re y k t ^ 2 + stft_im y k t ^ 2)
                    (seq 0 (n_frames y)))
      (seq 0 N_BINS).

(** Slaney mel scale ([htk=False]). *)
Definition F_SP : R := 200 / 3.
Definition MIN_LOG_HZ : R := 1000.
Definition MIN_LOG_MEL : R := MIN_LOG_HZ / F_SP.
Definition LOGSTEP : R := ln 6.4 / 27.

Definition hz_to_mel (f : R) : R :=
  if Rle_dec MIN_LOG_HZ f then MIN_LOG_MEL + ln (f / MIN_LOG_HZ) / LOGSTEP
  else f / F_SP.

Definition mel_to_hz (m : R) : R :=
  if Rle_dec MIN_LOG_MEL m then MIN_LOG_HZ * exp (LOGSTEP * (m - MIN_LOG_MEL))
  else F_SP * m.

(** [mel_frequencies(n_mels + 2, fmin=0, fmax=sr/2)] *)
Definition mel_f (i : nat) : R :=
  let min_mel := hz_to_mel 0 in
  let max_mel := hz_to_mel (SR / 2) in
  mel_to_hz (min_mel + INR i * (max_mel - min_mel) / INR (N_MELS + 1)).

(** [fft_frequencies(sr, n_fft)] *)
Definition fftfreq (k : nat) : R := INR k * SR / INR N_FFT.

(** [filters.mel(...)][i, k], triangular weight with Slaney normalisation. *)
Definition mel_weight (i k : nat) : R :=
  let lower := - (mel_f i - fftfreq k) / (mel_f (i + 1) - mel_f i) in
  let upper := (mel_f (i + 2) - fftfreq k) / (mel_f (i + 2) - mel_f (i + 1)) in
  Rmax 0 (Rmin lower upper) * (2 / (mel_f (i + 2) - mel_f i)).

Definition mel_basis : list (list R) :=
  map (fun i => map (mel_weight i) (seq 0 N_BINS)) (seq 0 N_MELS).

(** [mel_basis @ S] *)
Definition melspectrogram (y : list R) : list (list R) :=
  let S := power_spec y in
  map (fun weights =>
         map (fun t => Rsum (map (fun k => nth k weights 0 * nth t (nth k S []) 0)
                                 (seq 0 N_BINS)))
             (seq 0 (n_frames y)))
      mel_basis.

(** [np.max] of a non-empty array. *)
Definition mat_max (S : list (list R)) : R :=
  match concat S with
  | [] => 0
  | x :: xs => fold_left Rmax xs x
  end.

Definition log10 (x : R) : R := ln x / ln 10.
Definition AMIN : R := 1e-10.
Definition TOP_DB : R := 80.

(** [librosa.power_to_db(S, ref=np.max)] *)
Definition power_to_db (S : list (list R)) : list (list R) :=
  let ref_value := mat_max S in
  let log_spec :=
    map (map (fun x => 10 * log10 (Rmax AMIN x) - 10 * log10 (Rmax AMIN ref_value))) S in
  let top := mat_max log_spec in
  map (map (fun x => Rmax x (top - TOP_DB))) log_spec.

(** [mean(axis=1)] and [std(axis=1)] (population standard deviation). *)
Definition mean (row : list R) : R := Rsum row / INR (length row).
Definition std (row : list R) : R :=
  sqrt (Rsum (map (fun x => (x - mean row) ^ 2) row) / INR (length row)).

Definition EPS : R := 1e-8.

(** [(log_mel_spec - mean) / (std + 1e-8)] *)
Definition normalize_rows (L : list (list R)) : list (list R) :=
  map (fun row => map (fun x => (x - mean row) / (std row + EPS)) row) L.

Definition log_mel (samples : list R) : list (list R) :=
  power_to_db (melspectrogram (scale samples)).

(** [preprocess_audio]: the (1, 80, T) tensor, as a one-element list. *)
Definition preprocess_audio (samples : list R) : list (list (list R)) :=
  [normalize_rows (log_mel samples)].

(** Six seconds of digital silence at 16 kHz. *)
Definition silence_6s : list R := repeat 0 (Z.to_nat 96000).

End Features.

(* ================================================================== *)
(** * Proofs *)

Example py_int_ex1 : py_int (s2py " 0_07 ") = Some 7.
Proof. reflexivity. Qed.
Example py_int_ex2 : py_int (s2py "1__0") = None.
Proof. reflexivity. Qed.
(* "\x1c5": only ASCII whitespace is skipped around the digits *)
Example py_int_ex3 : py_int [28; 53] = None.
Proof. reflexivity. Qed.
(* "\u00a0\u0661\u0662": other whitespace and non-ASCII digits are accepted *)
Example py_int_ex4 : py_int [160; 1633; 1634] = Some 12.
Proof. vm_compute. reflexivity. Qed.
(* at most 4300 digits *)
Example py_int_ex5 : py_int (repeat 48 4300) = Some 0 /\ py_int (repeat 48 4301) = None.
Proof. vm_compute. split; reflexivity. Qed.
(* the line "t \u0661" loads as {1: "t"} *)
Example load_token_map_ex : load_token_map (TFLines [[116; 32; 1633]]) = <[1 := [116]]> ∅.
Proof. vm_compute. reflexivity. Qed.
Example py_split_ex : py_split (s2py "  a b   cd ") = [s2py "a"; s2py "b"; s2py "cd"].
Proof. reflexivity. Qed.
Example py_split_once_ex : py_split_once 32 (s2py "a b c") = [s2py "a"; s2py "b c"].
Proof. reflexivity. Qed.

(* ---- properties of py_max ---- *)

Lemma py_max_ge_init x xs : x <= py_max x xs.
Proof.
  unfold py_max. revert x. induction xs as [|y ys IH]; intros x; simpl; [lia|].
  specialize (IH (Z.max x y)). lia.
Qed.

Lemma py_max_ge x xs y : In y xs -> y <= py_max x xs.
Proof.
  unfold py_max. revert x. induction xs as [|z zs IH]; intros x Hin; simpl in *.
  - contradiction.
  - destruct Hin as [<-|Hin].
    + pose proof (py_max_ge_init (Z.max x z) zs). unfold py_max in *. lia.
    + apply IH, Hin.
Qed.

Lemma py_max_in x xs : py_max x xs = x \/ In (py_max x xs) xs.
Proof.
  unfold py_max. revert x. induction xs as [|y ys IH]; intros x; simpl; [auto|].
  destruct (IH (Z.max x y)) as [H|H]; [|auto].
  rewrite H. destruct (Z.max_spec x y) as [[_ ->]|[_ ->]]; auto.
Qed.

Lemma blank_token_id_max (table : token_map_t) :
  size table <> 0%nat -> is_max_key table (blank_token_id table).
Proof.
  intros Hsz. unfold blank_token_id.
  destruct (map_to_list table) as [|[k v] kvs] eqn:Hl.
  { apply map_to_list_empty_iff in Hl. subst. done. }
  assert (Hkeys : forall j, is_Some (table !! j) <-> In j (k :: map fst kvs)).
  { intros j. split.
    - intros [w Hw]. apply elem_of_map_to_list in Hw. rewrite Hl in Hw.
      apply list_elem_of_In in Hw. simpl in Hw. destruct Hw as [Hw|Hw].
      + inversion Hw; subst; left; done.
      + right. apply (in_map fst) in Hw. exact Hw.
    - intros Hin. simpl in Hin.
      assert (Hp : exists w, In (j, w) ((k, v) :: kvs)).
      { destruct Hin as [<-|Hin]; [eauto using in_eq|].
        apply in_map_iff in Hin as [[j' w] [Hj Hw]]. simpl in Hj; subst j'.
        exists w. right. exact Hw. }
      destruct Hp as [w Hw]. rewrite <- Hl in Hw.
      apply list_elem_of_In, elem_of_map_to_list in Hw. eauto. }
  split.
  - apply Hkeys. destruct (py_max_in k (map fst kvs)) as [->|H]; simpl; auto.
  - intros j Hj. apply Hkeys in Hj. destruct Hj as [<-|Hj].
    + apply py_max_ge_init.
    + apply py_max_ge, Hj.
Qed.

Lemma is_max_key_unique table b1 b2 :
  is_max_key table b1 -> is_max_key table b2 -> b1 = b2.
Proof.
  intros [H1 H1'] [H2 H2']. specialize (H1' _ H2). specialize (H2' _ H1). lia.
Qed.

Lemma decode_loop_spec table blank ids prev acc :
  concat (decode_loop table blank ids prev acc)
  = output (fold_left (ctc_step blank table) ids
              {| previous := prev; output := concat acc |}).
Proof.
  revert prev acc. induction ids as [|id ids IH]; intros prev acc; simpl; [done|].
  unfold ctc_step at 2. simpl.
  destruct (id =? blank); [apply IH|].
  case_bool_decide; [apply IH|].
  rewrite IH. destruct (table !! id); simpl;
    rewrite ?concat_app; simpl; rewrite ?app_nil_r; done.
Qed.

Lemma decode_loop_collapsed table blank ids prev acc :
  no_adj_dup ids = true -> ~ In blank ids ->
  (match ids with [] => True | id :: _ => prev <> Some id end) ->
  decode_loop table blank ids prev acc = acc ++ mapped_tokens table ids.
Proof.
  revert prev acc. induction ids as [|id ids IH]; intros prev acc Hnd Hnb Hprev.
  { simpl. by rewrite app_nil_r. }
  simpl. destruct (Z.eqb_spec id blank) as [->|Hne].
  { exfalso. apply Hnb. left. done. }
  rewrite bool_decide_false by done.
  assert (Hnd' : no_adj_dup ids = true).
  { destruct ids; [done|]. simpl in Hnd. apply andb_prop in Hnd. tauto. }
  assert (Hnb' : ~ In blank ids) by (intros H; apply Hnb; right; exact H).
  assert (Hprev' : match ids with [] => True | id' :: _ => Some id <> Some id' end).
  { destruct ids as [|id' ids]; [done|]. simpl in Hnd.
    apply andb_prop in Hnd as [Hd _]. apply negb_true_iff, Z.eqb_neq in Hd.
    congruence. }
  rewrite (IH _ _ Hnd' Hnb' Hprev').
  unfold mapped_tokens. simpl.
  destruct (table !! id); simpl; by rewrite <- ?app_assoc.
Qed.

(** Claim C1: on a non-empty table, [decode_tokens] is the greedy CTC
    collapse of the specification with blank = the maximum key of the
    table: blank frames reset [previous], repeats of [previous] are
    skipped, other ids append their token when mapped (and set
    [previous] even when unmapped), tokens joined with no separator. *)
Theorem decode_tokens_ctc_spec (token_ids : list Z) (table : token_map_t) (b : Z) :
  size table <> 0%nat -> is_max_key table b ->
  decode_tokens token_ids table = ctc_decode_spec b table token_ids.
Proof.
  intros Hsz Hb. unfold decode_tokens. rewrite bool_decide_false by done.
  rewrite (is_max_key_unique _ _ _ (blank_token_id_max _ Hsz) Hb).
  unfold ctc_decode_spec. apply decode_loop_spec.
Qed.

Lemma decode_tokens_ctc_spec_witness :
  size table_5_2 <> 0%nat /\ is_max_key table_5_2 5 /\
  decode_tokens [5; 5; 2; 2; 2; 7; 7] table_5_2
  = ctc_decode_spec 5 table_5_2 [5; 5; 2; 2; 2; 7; 7].
Proof.
  assert (Hsz : size table_5_2 <> 0%nat) by (vm_compute; lia).
  assert (Hb : is_max_key table_5_2 5).
  { split.
    - unfold table_5_2. rewrite lookup_insert_eq. eauto.
    - intros k [v Hk]. unfold table_5_2 in Hk.
      rewrite lookup_insert_Some, lookup_insert_Some, lookup_empty in Hk.
      destruct Hk as [[<- _]|[_ [[<- _]|[_ Hk]]]]; [lia|lia|discriminate]. }
  split; [exact Hsz|]. split; [exact Hb|].
  apply (decode_tokens_ctc_spec _ _ _ Hsz Hb).
Defined.

(** Claim C5 (counterexample): with the table {5:"अ", 2:"ब"} the decoder
    does not take 7 as blank; the blank is the table's maximum key 5, so
    [5, 5, 2, 2, 2, 7, 7] decodes to "ब", not "अब". *)
Lemma decode_example_not_AB :
  decode_tokens [5; 5; 2; 2; 2; 7; 7] table_5_2 <> DEV_A ++ DEV_BA.
Proof. vm_compute. discriminate. Qed.

(** Claim C5 (amended): the blank is the maximum key of the table.  On
    {5:"अ", 2:"ब"} (blank 5) the frames [5, 5, 2, 2, 2, 7, 7] decode to
    "ब"; once the table also holds the blank entry 7 (as the exported
    vocabulary does with "<blk>"), they decode to "अब". *)
Theorem decode_example_blank_is_max_key :
  blank_token_id table_5_2 = 5 /\
  decode_tokens [5; 5; 2; 2; 2; 7; 7] table_5_2 = DEV_BA /\
  blank_token_id (<[7 := s2py "<blk>"]> table_5_2) = 7 /\
  decode_tokens [5; 5; 2; 2; 2; 7; 7] (<[7 := s2py "<blk>"]> table_5_2)
  = DEV_A ++ DEV_BA.
Proof. vm_compute. repeat split. Qed.

(** Claim C7: with an empty table, [decode_tokens] returns the empty
    string whatever the frame ids. *)
Theorem decode_tokens_empty_table (token_ids : list Z) :
  decode_tokens token_ids ∅ = [].
Proof. reflexivity. Qed.

(** Claim C9: on a non-empty table, frames with no two consecutive equal
    ids and no blank id decode to the concatenation, in order, of the
    tokens of the mapped ids. *)
Theorem decode_tokens_collapsed (token_ids : list Z) (table : token_map_t) :
  size table <> 0%nat ->
  no_adj_dup token_ids = true ->
  ~ In (blank_token_id table) token_ids ->
  decode_tokens token_ids table = concat (mapped_tokens table token_ids).
Proof.
  intros Hsz Hnd Hnb. unfold decode_tokens. rewrite bool_decide_false by done.
  rewrite decode_loop_collapsed; [done|done|done|].
  destruct token_ids; done.
Qed.

Lemma decode_tokens_collapsed_witness :
  decode_tokens [2; 9; 5; 2] (<[7 := s2py "<blk>"]> table_5_2) = DEV_BA ++ DEV_A ++ DEV_BA.
Proof.
  rewrite (decode_tokens_collapsed [2; 9; 5; 2] (<[7 := s2py "<blk>"]> table_5_2)).
  - reflexivity.
  - vm_compute. lia.
  - reflexivity.
  - vm_compute. intuition discriminate.
Defined.

(* ---- vocabulary loading ---- *)

Lemma load_step_entry (token_map : token_map_t) line :
  load_step token_map line
  = match line_entry line with
    | Some (i, token) => <[i := token]> token_map
    | None => token_map
    end.
Proof. unfold load_step, line_entry. by destruct (py_strip line). Qed.

Lemma load_lines_list_to_map (lines : list pystr) :
  fold_left load_step lines ∅ = list_to_map (reverse (omap line_entry lines)).
Proof.
  induction lines as [|line lines IH] using rev_ind; [done|].
  rewrite fold_left_app, IH. simpl. rewrite load_step_entry, omap_app. simpl.
  destruct (line_entry line) as [[i token]|]; simpl.
  - by rewrite reverse_app.
  - by rewrite app_nil_r.
Qed.

(** Claim C6 (counterexample): two well-formed lines with the same index
    give a table of size 1, and the line " 1" of an empty token, once
    stripped, has no separator left and is not loaded. *)
Lemma load_token_map_not_line_count :
  size (load_token_map (TFLines [s2py "a 1"; s2py "b 1"])) = 1%nat /\
  load_token_map (TFLines [s2py " 1"]) = ∅.
Proof. vm_compute. split; reflexivity. Qed.

(** Claim C6 (amended): loading never fails; a missing or unreadable
    file gives the empty table; otherwise each stripped line is split on
    its first space and stored as [int(rest) -> token] when [int(rest)]
    succeeds ([py_int], CPython's [int] of a [str]), every other line is
    skipped, a later line wins
    over an earlier one with the same index, and the table's size is the
    number of distinct indices among the lines that load. *)
Theorem load_token_map_entries (lines : list pystr) :
  load_token_map TFMissing = ∅ /\ load_token_map TFUnreadable = ∅ /\
  load_token_map (TFLines lines) = list_to_map (reverse (omap line_entry lines)) /\
  size (load_token_map (TFLines lines))
  = size (list_to_set (map fst (omap line_entry lines)) : gset Z).
Proof.
  split; [done|]. split; [done|].
  assert (Hm := load_lines_list_to_map lines). simpl. rewrite Hm.
  split; [done|].
  rewrite <- size_dom, dom_list_to_map_L. f_equal.
  apply set_eq. intros k. rewrite !elem_of_list_to_set.
  change (map fst (omap line_entry lines)) with ((omap line_entry lines).*1).
  rewrite !list_elem_of_fmap. setoid_rewrite elem_of_reverse. done.
Qed.

(* ---- whitespace normalisation ---- *)

Definition good_word (w : pystr) : Prop :=
  w <> [] /\ Forall (fun c => py_isspace c = false) w.

Lemma py_split_go_words s w ws :
  py_split_go s = (w, ws) ->
  Forall (fun c => py_isspace c = false) w /\ Forall good_word ws.
Proof.
  revert w ws. induction s as [|c s IH]; intros w ws Hgo; simpl in Hgo.
  { inversion Hgo; subst. split; constructor. }
  destruct (py_split_go s) as [w' ws'] eqn:Hs.
  destruct (IH _ _ eq_refl) as [Hw' Hws'].
  destruct (py_isspace c) eqn:Hc; inversion Hgo; subst.
  - split; [constructor|]. destruct w'; simpl; [done|].
    constructor; [|done]. split; [done|exact Hw'].
  - split; [constructor; done|exact Hws'].
Qed.

Lemma py_split_go_all_space s :
  py_split_go s = ([], []) -> Forall (fun c => py_isspace c = true) s.
Proof.
  induction s as [|c s IH]; intros Hgo; simpl in Hgo; [constructor|].
  destruct (py_split_go s) as [w' ws'] eqn:Hs.
  destruct (py_isspace c) eqn:Hc; [|discriminate].
  inversion Hgo as [Hcw]. destruct w'; [|discriminate]. simpl in Hcw. subst.
  constructor; [done|]. apply IH; done.
Qed.

(** [ends_space s]: the last character of [s] is whitespace. *)
Definition ends_space (s : pystr) : bool :=
  match rev s with c :: _ => py_isspace c | [] => false end.

Lemma ends_space_cons c s :
  ends_space (c :: s) = match s with [] => py_isspace c | _ => ends_space s end.
Proof.
  unfold ends_space. simpl. destruct s as [|d s]; [done|].
  destruct (rev (d :: s)) eqn:Hr; [|done].
  apply (f_equal (@length Z)) in Hr. rewrite length_rev in Hr. discriminate.
Qed.

Lemma ends_space_all_space s :
  s <> [] -> Forall (fun c => py_isspace c = true) s -> ends_space s = true.
Proof.
  induction s as [|c s IH]; intros Hne Hall; [done|].
  inversion Hall; subst. rewrite ends_space_cons.
  destruct s; [done|]. apply IH; done.
Qed.

Definition sep_words (ws : list pystr) : pystr := concat (map (cons 32) ws).

(** The structure of [collapse_ws s] in terms of the words of [s]. *)
Lemma collapse_ws_words s w ws :
  py_split_go s = (w, ws) ->
  collapse_ws s = w ++ sep_words ws ++ (if ends_space s then [32] else []).
Proof.
  revert w ws. induction s as [|c s IH]; intros w ws Hgo; simpl in Hgo.
  { inversion Hgo; subst. reflexivity. }
  destruct (py_split_go s) as [w' ws'] eqn:Hs.
  pose proof (IH _ _ eq_refl) as Hc'.
  pose proof (py_split_go_words _ _ _ Hs) as [Hw' Hws'].
  simpl. rewrite Hc', ends_space_cons.
  destruct (py_isspace c) eqn:Hc; inversion Hgo; subst; clear Hgo.
  - destruct w' as [|a w'].
    + destruct ws' as [|x ws'].
      * destruct s as [|d s].
        { reflexivity. }
        pose proof (py_split_go_all_space _ Hs) as Hall.
        rewrite (ends_space_all_space (d :: s)) by done. reflexivity.
      * destruct s; [discriminate|]. reflexivity.
    + destruct s; [discriminate|].
      inversion Hw' as [|? ? Ha _]; subst.
      assert (Ha32 : (a =? 32) = false).
      { apply Z.eqb_neq. intros ->. discriminate. }
      simpl. rewrite Ha32. unfold sep_words. by rewrite app_assoc.
  - destruct s; reflexivity.
Qed.

Lemma py_lstrip_nonspace_head (a : Z) (u : pystr) :
  py_isspace a = false -> py_lstrip (a :: u) = a :: u.
Proof. intros Ha. simpl. by rewrite Ha. Qed.

Lemma py_lstrip_spaces_app (t u : pystr) :
  Forall (fun c => py_isspace c = true) t -> py_lstrip (t ++ u) = py_lstrip u.
Proof.
  induction 1 as [|c t Hc _ IH]; [done|]. simpl. by rewrite Hc.
Qed.

Definition trail_space (b : bool) : pystr := if b then [32] else [].

Lemma trail_space_spaces b : Forall (fun c => py_isspace c = true) (rev (trail_space b)).
Proof. destruct b; simpl; repeat constructor. Qed.

(** Stripping a string that begins and ends with non-whitespace, with
    at most one space added at each end. *)
Lemma py_strip_padded (u : pystr) (lead trail : bool) :
  (exists a u', u = a :: u' /\ py_isspace a = false) ->
  (exists z u', u = u' ++ [z] /\ py_isspace z = false) ->
  py_strip (trail_space lead ++ u ++ trail_space trail) = u.
Proof.
  intros (a & u1 & -> & Ha) (z & u2 & Hu2 & Hz).
  unfold py_strip.
  rewrite py_lstrip_spaces_app by (destruct lead; repeat constructor).
  simpl. rewrite Ha. rewrite app_comm_cons, Hu2.
  rewrite rev_app_distr, py_lstrip_spaces_app by apply trail_space_spaces.
  rewrite rev_app_distr. simpl. rewrite Hz. simpl. by rewrite rev_involutive.
Qed.

Lemma py_join_sep_words (x : pystr) (xs : list pystr) :
  py_join [32] (x :: xs) = x ++ sep_words xs.
Proof.
  revert x. induction xs as [|y ys IH]; intros x.
  - simpl. by rewrite app_nil_r.
  - change (py_join [32] (x :: y :: ys)) with (x ++ [32] ++ py_join [32] (y :: ys)).
    rewrite IH. reflexivity.
Qed.

Lemma good_word_head w : good_word w -> exists a u', w = a :: u' /\ py_isspace a = false.
Proof. intros [Hne Hall]. destruct w as [|a u]; [done|]. inversion Hall; eauto. Qed.

Lemma good_word_last w : good_word w -> exists z u', w = u' ++ [z] /\ py_isspace z = false.
Proof.
  intros [Hne Hall]. destruct (exists_last Hne) as [u' [z ->]].
  exists z, u'. split; [done|]. apply Forall_app in Hall as [_ Hz].
  by inversion Hz.
Qed.

Lemma sep_words_last x xs :
  good_word x -> Forall good_word xs ->
  exists z u', x ++ sep_words xs = u' ++ [z] /\ py_isspace z = false.
Proof.
  revert x. induction xs as [|y ys IH] using rev_ind; intros x Hx Hxs.
  - rewrite app_nil_r. by apply good_word_last.
  - apply Forall_app in Hxs as [_ Hy]. inversion Hy as [|? ? Hgy _]; subst.
    destruct (good_word_last _ Hgy) as (z & u' & -> & Hz).
    exists z, (x ++ sep_words ys ++ 32 :: u').
    split; [|done]. unfold sep_words. rewrite map_app, concat_app. simpl.
    rewrite !app_nil_r, <- !app_assoc. reflexivity.
Qed.

Lemma strip_collapse_eq_join_split (s : pystr) :
  py_strip (collapse_ws s) = py_join [32] (py_split s).
Proof.
  unfold py_split. destruct (py_split_go s) as [w ws] eqn:Hgo.
  rewrite (collapse_ws_words _ _ _ Hgo).
  destruct (py_split_go_words _ _ _ Hgo) as [Hw Hws].
  change (if ends_space s then [32] else []) with (trail_space (ends_space s)).
  destruct w as [|a w].
  - destruct ws as [|x xs].
    + simpl. destruct (ends_space s); reflexivity.
    + inversion Hws as [|? ? Hx Hxs]; subst. simpl cons_word.
      rewrite py_join_sep_words.
      change ([] ++ sep_words (x :: xs) ++ trail_space (ends_space s))
        with (trail_space true ++ (x ++ sep_words xs) ++ trail_space (ends_space s)).
      rewrite py_strip_padded; [done| |].
      * destruct (good_word_head _ Hx) as (a & u' & -> & Ha). eauto.
      * by apply sep_words_last.
  - assert (Hgw : good_word (a :: w)) by (split; [done|exact Hw]).
    simpl cons_word. rewrite py_join_sep_words.
    rewrite app_assoc.
    change (py_strip (((a :: w) ++ sep_words ws) ++ trail_space (ends_space s)))
      with (py_strip (trail_space false ++ ((a :: w) ++ sep_words ws)
                      ++ trail_space (ends_space s))).
    rewrite py_strip_padded; [done| |].
    + inversion Hw; subst. simpl. eauto.
    + by apply sep_words_last.
Qed.


Lemma join_split_stripped (s : pystr) :
  py_strip (py_join [32] (py_split s)) = py_join [32] (py_split s).
Proof.
  unfold py_split. destruct (py_split_go s) as [w ws] eqn:Hgo.
  destruct (py_split_go_words _ _ _ Hgo) as [Hw Hws].
  assert (Hgood : Forall good_word (cons_word w ws)).
  { destruct w as [|a w]; simpl; [done|]. constructor; [|done]. split; done. }
  destruct (cons_word w ws) as [|x xs]; [reflexivity|].
  inversion Hgood as [|? ? Hx Hxs]; subst.
  rewrite py_join_sep_words.
  transitivity (py_strip (trail_space false ++ (x ++ sep_words xs) ++ trail_space false)).
  { simpl. by rewrite app_nil_r. }
  apply py_strip_padded.
  - destruct (good_word_head _ Hx) as (a & u' & -> & Ha). eauto.
  - by apply sep_words_last.
Qed.

(** Claim C8: post-processing collapses every run of whitespace to one
    space and trims both ends; when nothing is left it returns the
    sentinel "[No speech detected]" as an ordinary result. *)
Theorem post_process_text_spec (text : pystr) :
  post_process_text text
  = match normalize_ws_spec text with
    | [] => NO_SPEECH
    | t => t
    end.
Proof.
  unfold post_process_text, normalize_ws_spec.
  change (s2py " ") with [32].
  rewrite join_split_stripped, strip_collapse_eq_join_split.
  by destruct (py_join [32] (py_split text)).
Qed.

Example post_process_text_ex1 :
  post_process_text (s2py " 	 a  b
 c  ") = s2py "a b c".
Proof. reflexivity. Qed.
Example post_process_text_ex2 :
  post_process_text [32; 12288; 10] = NO_SPEECH.
Proof. reflexivity. Qed.

(* ---- duration validation ---- *)

Lemma validate_audio_ok (n : N) :
  validate_audio (AudioOK n)
  = ([EvAudioLoad], inr (Qle_bool 5 (audio_duration n) && Qle_bool (audio_duration n) 10)).
Proof. reflexivity. Qed.

Lemma validate_audio_reject (n : N) :
  (audio_duration n < 5 \/ 10 < audio_duration n)%Q ->
  validate_audio (AudioOK n) = ([EvAudioLoad], inr false).
Proof.
  intros Hd. rewrite validate_audio_ok. do 2 f_equal.
  apply andb_false_iff. destruct Hd as [H|H]; [left|right];
    apply not_true_iff_false; rewrite Qle_bool_iff; by apply Qlt_not_le.
Qed.

Lemma validate_audio_accept (n : N) :
  (5 <= audio_duration n /\ audio_duration n <= 10)%Q ->
  validate_audio (AudioOK n) = ([EvAudioLoad], inr true).
Proof.
  intros [H1 H2]. rewrite validate_audio_ok.
  apply Qle_bool_iff in H1, H2. by rewrite H1, H2.
Qed.

(** Claim C3: on a decodable file, [validate_audio] accepts exactly the
    durations in the closed interval [5.0, 10.0] seconds; in particular
    both ends are accepted and the samples just outside are rejected. *)
Theorem validate_audio_interval (n : N) :
  (snd (validate_audio (AudioOK n)) = inr true
   <-> (5 <= audio_duration n /\ audio_duration n <= 10)%Q) /\
  (snd (validate_audio (AudioOK n)) = inr false
   <-> (audio_duration n < 5 \/ 10 < audio_duration n)%Q).
Proof.
  rewrite validate_audio_ok. simpl snd. set (d := audio_duration n).
  split; split.
  - intros H. injection H as H. apply andb_true_iff in H as [H1 H2].
    apply Qle_bool_iff in H1, H2. done.
  - intros [H1 H2]. apply Qle_bool_iff in H1, H2. by rewrite H1, H2.
  - intros H. injection H as H.
    apply andb_false_iff in H as [H|H]; [left|right]; apply Qnot_le_lt;
      intros H'; apply Qle_bool_iff in H'; congruence.
  - intros [H|H]; f_equal; apply andb_false_iff; [left|right];
      apply not_true_iff_false; rewrite Qle_bool_iff; by apply Qlt_not_le.
Qed.

Example validate_audio_boundaries :
  snd (validate_audio (AudioOK 80000)) = inr true /\
  snd (validate_audio (AudioOK 160000)) = inr true /\
  snd (validate_audio (AudioOK 79999)) = inr false /\
  snd (validate_audio (AudioOK 160001)) = inr false.
Proof. vm_compute. repeat split. Qed.

(** Claim C10: [validate_audio] never raises: on every file it returns a
    boolean, and a file [librosa.load] cannot decode gives [False]. *)
Theorem validate_audio_total (f : audio_file) :
  (exists b, snd (validate_audio f) = inr b) /\
  snd (validate_audio AudioBad) = inr false.
Proof.
  split; [|reflexivity].
  destruct f as [n|]; [rewrite validate_audio_ok|]; simpl; eauto.
Qed.

(* ---- the duration gate of the pipeline ---- *)

Lemma bind_events_prefix {A B} (m : M A) (f : A -> M B) :
  exists l, fst (m ≫= f) = fst m ++ l.
Proof.
  destruct m as [evs [e|a]]; simpl.
  - exists []. by rewrite app_nil_r.
  - destruct (f a) as [evs' r]. eauto.
Qed.

(** Claim C4 (counterexample): [ASRInference.transcribe] itself does not
    measure the duration: on a 12-second clip it runs feature extraction
    and inference and returns a transcript. *)
Lemma asr_transcribe_12s_runs_pipeline :
  let r := asr_transcribe blank_session demo_tokens None (AudioOK 192000) in
  In EvPreprocess (fst r) /\ In EvInfer (fst r) /\
  snd r = inr (NO_SPEECH, Some (load_token_map demo_tokens)).
Proof. vm_compute. split; [left; reflexivity|]. split; [right; right; left; reflexivity|]. reflexivity. Qed.

(** Claim C4 (amended): the duration gate is in the [/transcribe]
    handler, not in [ASRInference.transcribe]: for an upload whose audio
    lasts less than 5 or more than 10 seconds the handler answers with
    an HTTP 400 error and neither feature extraction nor inference runs,
    whereas [ASRInference.transcribe] starts with feature extraction on
    any input. *)
Theorem transcribe_endpoint_duration_gate (session : onnx_session) (tokens : token_file)
    (cache : option token_map_t) (file : upload) (n : N) :
  upload_audio file = AudioOK n ->
  (audio_duration n < 5 \/ 10 < audio_duration n)%Q ->
  (let r := transcribe_endpoint session tokens cache file in
   ~ In EvPreprocess (fst r) /\ ~ In EvInfer (fst r) /\
   exists detail, snd r = inl (ExcHTTP 400 detail)) /\
  (forall a, head (fst (asr_transcribe session tokens cache a)) = Some EvPreprocess).
Proof.
  intros Hf Hd. split.
  - assert (Hv : validate_audio (AudioOK n) = ([EvAudioLoad], inr false))
      by (apply validate_audio_reject, Hd).
    unfold transcribe_endpoint. rewrite Hf, Hv.
    destruct (content_type file) as [ct|]; [destruct (py_contains _ _)|];
      destruct (filename file) as [fn|]; try destruct (py_endswith _ _);
      destruct (MAX_UPLOAD_BYTES <? content_len file);
      simpl; (split; [intuition discriminate|]); (split; [intuition discriminate|]);
      eexists; reflexivity.
  - intros a. unfold asr_transcribe.
    match goal with
    | |- context [fst (mbind ?f ?m)] => destruct (bind_events_prefix m f) as [l ->]
    end.
    destruct a; reflexivity.
Qed.

Lemma transcribe_endpoint_duration_gate_witness :
  (audio_duration 192000 < 5 \/ 10 < audio_duration 192000)%Q /\
  ~ In EvInfer (fst (transcribe_endpoint blank_session demo_tokens None
                       (wav_upload (AudioOK 192000)))).
Proof.
  assert (Hd : (audio_duration 192000 < 5 \/ 10 < audio_duration 192000)%Q).
  { right. vm_compute. reflexivity. }
  split; [exact Hd|].
  apply (transcribe_endpoint_duration_gate blank_session demo_tokens None
           (wav_upload (AudioOK 192000)) 192000 eq_refl Hd).
Defined.

(* ---- feature extraction ---- *)

Section FeatureFacts.
Local Open Scope R_scope.
Import Features.

#[local] Abbreviation all_zero := (Forall (fun x : R => x = 0)).
(* a list of reals that are all 0 *)

Lemma Rsum_map_zero {A} (f : A -> R) (l : list A) :
  (forall x, In x l -> f x = 0) -> Rsum (map f l) = 0.
Proof.
  induction l as [|a l IH]; intros Hf; simpl; [done|].
  rewrite Hf by (left; done). rewrite IH by (intros x Hx; apply Hf; right; done). lra.
Qed.

Lemma nth_all_zero (l : list R) n : all_zero l -> nth n l 0 = 0.
Proof.
  intros Hl. destruct (nth_in_or_default n l 0) as [H|H]; [|exact H].
  rewrite List.Forall_forall in Hl. by apply Hl.
Qed.

Lemma nth_nth_all_zero (S : list (list R)) k t :
  Forall all_zero S -> nth t (nth k S []) 0 = 0.
Proof.
  intros HS. destruct (nth_in_or_default k S []) as [H|H].
  - rewrite List.Forall_forall in HS. by apply nth_all_zero, HS.
  - rewrite H. by destruct t.
Qed.

Lemma all_zero_repeat n : all_zero (repeat 0 n).
Proof. induction n; constructor; auto. Qed.

Lemma scale_all_zero y : all_zero y -> all_zero (scale y).
Proof.
  intros Hy. unfold scale. rewrite Forall_map.
  eapply Forall_impl; [exact Hy|]. intros x ->. lra.
Qed.

Lemma frame_all_zero y t : all_zero y -> all_zero (frame y t).
Proof.
  intros Hy. unfold frame, y_pad. apply Forall_take, Forall_drop.
  apply Forall_app; split; [apply all_zero_repeat|].
  apply Forall_app; split; [exact Hy|apply all_zero_repeat].
Qed.

Lemma power_spec_all_zero y : all_zero y -> Forall all_zero (power_spec y).
Proof.
  intros Hy. unfold power_spec. apply List.Forall_forall. intros row Hrow.
  apply in_map_iff in Hrow as [k [<- _]].
  apply List.Forall_forall. intros x Hx. apply in_map_iff in Hx as [t [<- _]].
  assert (Hre : stft_re y k t = 0).
  { apply Rsum_map_zero. intros n _. rewrite (nth_all_zero (frame y t)) by apply frame_all_zero, Hy. lra. }
  assert (Him : stft_im y k t = 0).
  { unfold stft_im. rewrite Rsum_map_zero; [lra|].
    intros n _. rewrite (nth_all_zero (frame y t)) by apply frame_all_zero, Hy. lra. }
  rewrite Hre, Him. lra.
Qed.

Lemma melspectrogram_all_zero y : all_zero y -> Forall all_zero (melspectrogram y).
Proof.
  intros Hy. unfold melspectrogram. apply List.Forall_forall. intros row Hrow.
  apply in_map_iff in Hrow as [w [<- _]].
  apply List.Forall_forall. intros x Hx. apply in_map_iff in Hx as [t [<- _]].
  apply Rsum_map_zero. intros k _.
  rewrite nth_nth_all_zero by apply power_spec_all_zero, Hy. lra.
Qed.

Lemma fold_left_Rmax_zero xs : all_zero xs -> fold_left Rmax xs 0 = 0.
Proof.
  induction 1 as [|x xs -> _ IH]; simpl; [done|].
  rewrite Rmax_left by lra. exact IH.
Qed.

Lemma mat_max_all_zero S : Forall all_zero S -> mat_max S = 0.
Proof.
  intros HS. unfold mat_max.
  assert (Hc : all_zero (concat S)).
  { induction HS as [|row S Hrow _ IH]; simpl; [constructor|]. by apply Forall_app. }
  destruct (concat S) as [|x xs]; [done|].
  inversion Hc as [|? ? Hx Hxs]; subst. by apply fold_left_Rmax_zero.
Qed.

Lemma power_to_db_all_zero S : Forall all_zero S -> Forall all_zero (power_to_db S).
Proof.
  intros HS. unfold power_to_db.
  rewrite (mat_max_all_zero S HS).
  assert (Hl : Forall all_zero
                 (map (map (fun x => 10 * log10 (Rmax AMIN x) - 10 * log10 (Rmax AMIN 0))) S)).
  { apply List.Forall_forall. intros row Hrow. apply in_map_iff in Hrow as [r [<- Hr]].
    rewrite List.Forall_forall in HS. specialize (HS r Hr).
    apply List.Forall_forall. intros x Hx. apply in_map_iff in Hx as [z [<- Hz]].
    rewrite List.Forall_forall in HS. rewrite (HS z Hz). lra. }
  rewrite (mat_max_all_zero _ Hl).
  apply List.Forall_forall. intros row Hrow. apply in_map_iff in Hrow as [r [<- Hr]].
  rewrite List.Forall_forall in Hl. specialize (Hl r Hr).
  apply List.Forall_forall. intros x Hx. apply in_map_iff in Hx as [z [<- Hz]].
  rewrite List.Forall_forall in Hl. rewrite (Hl z Hz).
  unfold TOP_DB. rewrite Rmax_left by lra. reflexivity.
Qed.

Lemma Rsum_all_zero l : all_zero l -> Rsum l = 0.
Proof. induction 1 as [|x l -> _ IH]; simpl; [done|]. rewrite IH. lra. Qed.

Lemma mean_all_zero row : all_zero row -> mean row = 0.
Proof. intros H. unfold mean. rewrite Rsum_all_zero by exact H. unfold Rdiv. ring. Qed.

Lemma std_all_zero row : all_zero row -> std row = 0.
Proof.
  intros H. unfold std. rewrite mean_all_zero by exact H.
  rewrite Rsum_all_zero.
  - unfold Rdiv. rewrite Rmult_0_l. apply sqrt_0.
  - rewrite Forall_map. eapply Forall_impl; [exact H|].
    intros x ->. simpl. ring.
Qed.

Lemma normalize_rows_all_zero L :
  Forall all_zero L -> Forall all_zero (normalize_rows L).
Proof.
  intros HL. apply List.Forall_forall. intros row Hrow.
  apply in_map_iff in Hrow as [r [<- Hr]].
  rewrite List.Forall_forall in HL. specialize (HL r Hr).
  rewrite (mean_all_zero r HL), (std_all_zero r HL).
  apply List.Forall_forall. intros x Hx. apply in_map_iff in Hx as [z [<- Hz]].
  rewrite List.Forall_forall in HL. rewrite (HL z Hz). unfold Rdiv. ring.
Qed.

Lemma length_log_mel y : length (log_mel y) = N_MELS.
Proof.
  unfold log_mel, power_to_db, melspectrogram, mel_basis.
  rewrite !length_map. apply length_seq.
Qed.

End FeatureFacts.

Section FeatureMoments.
Local Open Scope R_scope.
Import Features.

Lemma Rsum_normalize (r : list R) (m d : R) :
  Rsum (map (fun x => (x - m) / d) r) = (Rsum r - INR (length r) * m) / d.
Proof.
  induction r as [|x r IH]; cbn [map Rsum fold_right length]; [unfold Rdiv; simpl; ring|].
  unfold Rsum in IH. rewrite S_INR. unfold Rdiv in *.
  rewrite Rmult_plus_distr_r, IH. ring.
Qed.

Lemma Rsum_sq_normalize (r : list R) (m d : R) :
  Rsum (map (fun x => (x - 0) ^ 2) (map (fun x => (x - m) / d) r))
  = Rsum (map (fun x => (x - m) ^ 2) r) * (/ d) ^ 2.
Proof.
  induction r as [|x r IH]; cbn [map Rsum fold_right]; [ring|].
  unfold Rsum in IH. rewrite IH. unfold Rdiv. ring.
Qed.

Lemma Rsum_sq_nonneg (r : list R) (m : R) : 0 <= Rsum (map (fun x => (x - m) ^ 2) r).
Proof.
  induction r as [|x r IH]; cbn [map Rsum fold_right]; [lra|].
  unfold Rsum in IH. pose proof (pow2_ge_0 (x - m)). lra.
Qed.

Lemma std_nonneg (r : list R) : 0 <= std r.
Proof. apply sqrt_pos. Qed.

(** One band: [(x - mean) / (std + 1e-8)] has mean 0 and standard
    deviation [std / (std + 1e-8)]. *)
Lemma normalize_row_moments (r : list R) :
  r <> [] ->
  let r' := map (fun x => (x - mean r) / (std r + EPS)) r in
  mean r' = 0 /\ std r' = std r / (std r + EPS).
Proof.
  intros Hne r'.
  assert (Hn : 0 < INR (length r)).
  { apply lt_0_INR. destruct r; [done|]. simpl. lia. }
  assert (Hd : 0 < std r + EPS).
  { pose proof (std_nonneg r). unfold EPS. lra. }
  assert (Hlen : length r' = length r) by apply length_map.
  assert (Hmean : mean r' = 0).
  { unfold mean at 1. rewrite Hlen. unfold r'. rewrite Rsum_normalize.
    unfold mean. field. split; lra. }
  split; [exact Hmean|].
  unfold std at 1. rewrite Hmean, Hlen. unfold r'. rewrite Rsum_sq_normalize.
  set (V := Rsum (map (fun x => (x - mean r) ^ 2) r)).
  assert (HV : 0 <= V) by apply Rsum_sq_nonneg.
  replace (V * (/ (std r + EPS)) ^ 2 / INR (length r))
    with (V / INR (length r) * (/ (std r + EPS)) ^ 2) by (unfold Rdiv; ring).
  rewrite sqrt_mult.
  - rewrite sqrt_pow2 by (left; apply Rinv_0_lt_compat, Hd).
    unfold std. fold V. unfold Rdiv at 3. reflexivity.
  - apply Rmult_le_pos; [exact HV|]. left. apply Rinv_0_lt_compat, Hn.
  - apply pow2_ge_0.
Qed.

Lemma nth_map_nil {A B} (f : list A -> list B) (L : list (list A)) (i : nat) :
  f [] = [] -> nth i (map f L) [] = f (nth i L []).
Proof.
  intros Hf. revert i. induction L as [|a L IH]; intros [|i]; simpl; auto.
Qed.

Lemma log_mel_row_lengths (y : list R) :
  Forall (fun row => length row = n_frames y) (log_mel y).
Proof.
  assert (Hn : n_frames (scale y) = n_frames y).
  { unfold n_frames, y_pad, scale. rewrite !length_app, length_map. reflexivity. }
  apply List.Forall_forall. intros row Hrow.
  unfold log_mel, power_to_db in Hrow.
  apply in_map_iff in Hrow as [r1 [<- Hr1]]. rewrite length_map.
  apply in_map_iff in Hr1 as [r2 [<- Hr2]]. rewrite length_map.
  unfold melspectrogram in Hr2. apply in_map_iff in Hr2 as [w [<- _]].
  rewrite length_map, length_seq. exact Hn.
Qed.

End FeatureMoments.

(** Claim C2 (counterexample): on six seconds of silence every one of the
    80 rows of the feature tensor is identically 0, so its standard
    deviation is 0, not approximately 1. *)
Lemma preprocess_audio_silence_rows_zero_std :
  let rows := hd [] (Features.preprocess_audio Features.silence_6s) in
  length rows = 80%nat /\
  (forall row, In row rows -> Features.std row = 0%R) /\
  ~ (forall row, In row rows -> (Rabs (Features.std row - 1) <= 1/2)%R).
Proof.
  assert (Hy : Forall (fun x : R => x = 0%R) Features.silence_6s) by apply all_zero_repeat.
  revert Hy. generalize Features.silence_6s. intros y Hy rows.
  assert (Hz : Forall (Forall (fun x : R => x = 0%R)) rows).
  { apply normalize_rows_all_zero, power_to_db_all_zero, melspectrogram_all_zero,
      scale_all_zero, Hy. }
  assert (Hlen : length rows = 80%nat).
  { unfold rows, Features.preprocess_audio, Features.normalize_rows. cbn [hd].
    rewrite length_map. apply length_log_mel. }
  assert (Hstd : forall row, In row rows -> Features.std row = 0%R).
  { intros row Hrow. rewrite List.Forall_forall in Hz. by apply std_all_zero, Hz. }
  split; [exact Hlen|]. split; [exact Hstd|].
  intros Happrox. clearbody rows. destruct rows as [|row rows']; [discriminate|].
  specialize (Happrox row (or_introl eq_refl)).
  rewrite (Hstd row (or_introl eq_refl)) in Happrox.
  rewrite Rabs_left in Happrox by lra. lra.
Qed.

(** Claim C2 (amended): the output is a (1, 80, T) tensor with
    T = n_frames; each row is its band of the log-mel spectrogram mapped
    by [(x - mean) / (std + 1e-8)], so it has mean 0 and standard
    deviation [s / (s + 1e-8)] where [s] is the band's standard
    deviation: approximately 1 when [s] is large against 1e-8, and 0
    for a constant band (e.g. on silence). *)
Theorem preprocess_audio_rows_normalized (samples : list R) :
  let F := Features.preprocess_audio samples in
  length F = 1%nat /\ length (hd [] F) = 80%nat /\
  forall i, (i < 80)%nat ->
    let band := nth i (Features.log_mel samples) [] in
    let row := nth i (hd [] F) [] in
    length row = Features.n_frames samples /\
    Features.mean row = 0%R /\
    Features.std row = (Features.std band / (Features.std band + Features.EPS))%R.
Proof.
  intros F. split; [reflexivity|].
  assert (HL := length_log_mel samples).
  split.
  { unfold F, Features.preprocess_audio, Features.normalize_rows. cbn [hd].
    rewrite length_map. exact HL. }
  intros i Hi band row.
  assert (Hband : length band = Features.n_frames samples).
  { pose proof (log_mel_row_lengths samples) as H. rewrite List.Forall_forall in H.
    apply H, nth_In. unfold Features.N_MELS in HL. lia. }
  assert (Hrow : row = map (fun x => ((x - Features.mean band)
                                       / (Features.std band + Features.EPS))%R) band).
  { unfold row, F, Features.preprocess_audio, Features.normalize_rows. cbn [hd].
    rewrite nth_map_nil by reflexivity. reflexivity. }
  assert (Hne : band <> []).
  { intros Hb. rewrite Hb in Hband. unfold Features.n_frames in Hband. simpl in Hband. lia. }
  destruct (normalize_row_moments band Hne) as [Hm Hs].
  rewrite Hrow. split; [rewrite length_map; exact Hband|]. split; assumption.
Qed.

(* ------------------------------------------------------------------ *)
(** * Further properties of the code *)

(* ---- decoding ---- *)


Lemma decode_loop_acc table blank ids prev acc :
  decode_loop table blank ids prev acc = acc ++ decode_loop table blank ids prev [].
Proof.
  revert prev acc. induction ids as [|id ids IH]; intros prev acc; simpl.
  { by rewrite app_nil_r. }
  destruct (id =? blank); [apply IH|].
  case_bool_decide; [apply IH|].
  destruct (table !! id) as [tok|]; [|apply IH].
  simpl. rewrite IH, (IH _ [tok]). by rewrite <- app_assoc.
Qed.

Lemma decode_loop_blank_app table blank l1 l2 prev acc :
  decode_loop table blank (l1 ++ blank :: l2) prev acc
  = decode_loop table blank l1 prev acc ++ decode_loop table blank l2 None [].
Proof.
  revert prev acc. induction l1 as [|id l1 IH]; intros prev acc; simpl.
  - rewrite Z.eqb_refl. apply decode_loop_acc.
  - destruct (id =? blank); [apply IH|].
    case_bool_decide; [apply IH|]. apply IH.
Qed.

Lemma decode_loop_app_prefix table blank l1 l2 prev acc :
  exists r, decode_loop table blank (l1 ++ l2) prev acc
            = decode_loop table blank l1 prev acc ++ r.
Proof.
  revert prev acc. induction l1 as [|id l1 IH]; intros prev acc; simpl.
  - rewrite decode_loop_acc. eauto.
  - destruct (id =? blank); [apply IH|].
    case_bool_decide; [apply IH|]. apply IH.
Qed.

Lemma decode_loop_app_congr table blank l1 r1 r2 :
  (forall prev acc, decode_loop table blank r1 prev acc = decode_loop table blank r2 prev acc) ->
  forall prev acc,
  decode_loop table blank (l1 ++ r1) prev acc = decode_loop table blank (l1 ++ r2) prev acc.
Proof.
  intros Hr. induction l1 as [|id l1 IH]; intros prev acc; simpl; [apply Hr|].
  destruct (id =? blank); [apply IH|].
  case_bool_decide; [apply IH|]. apply IH.
Qed.

Lemma decode_loop_stutter table blank x l2 prev acc :
  decode_loop table blank (x :: x :: l2) prev acc = decode_loop table blank (x :: l2) prev acc.
Proof.
  cbn [decode_loop]. destruct (x =? blank) eqn:Hx.
  - done.
  - case_bool_decide as Hp.
    + cbn [decode_loop]. rewrite ?Hx. rewrite ?bool_decide_true; done.
    + cbn [decode_loop]. rewrite ?Hx. rewrite ?bool_decide_true; done.
Qed.

Lemma decode_loop_pieces table blank ids prev acc :
  exists ks, ks `sublist_of` ids /\
    Forall (fun k => k <> blank /\ is_Some (table !! k)) ks /\
    decode_loop table blank ids prev acc = acc ++ omap (fun k => table !! k) ks.
Proof.
  revert prev acc. induction ids as [|id ids IH]; intros prev acc; simpl.
  { exists []. split; [constructor|]. split; [constructor|]. by rewrite app_nil_r. }
  destruct (Z.eqb_spec id blank) as [Hb|Hb].
  { destruct (IH None acc) as (ks & Hs & Hf & He). exists ks.
    split; [by apply sublist_cons|]. done. }
  case_bool_decide.
  { destruct (IH prev acc) as (ks & Hs & Hf & He). exists ks.
    split; [by apply sublist_cons|]. done. }
  destruct (table !! id) as [tok|] eqn:Ht.
  - destruct (IH (Some id) (acc ++ [tok])) as (ks & Hs & Hf & He).
    exists (id :: ks). split; [by apply sublist_skip|].
    split; [constructor; [split; [done|rewrite Ht; eauto]|done]|].
    rewrite He. simpl. rewrite Ht. by rewrite <- app_assoc.
  - destruct (IH (Some id) acc) as (ks & Hs & Hf & He). exists ks.
    split; [by apply sublist_cons|]. done.
Qed.

(** Extra X1: a frame equal to the blank id cuts decoding in two:
    the frames before it and the frames after it decode independently
    and the results are concatenated. *)
Theorem decode_tokens_blank_splits (l1 l2 : list Z) (table : token_map_t) :
  decode_tokens (l1 ++ blank_token_id table :: l2) table
  = decode_tokens l1 table ++ decode_tokens l2 table.
Proof.
  unfold decode_tokens. case_bool_decide; [done|].
  by rewrite decode_loop_blank_app, concat_app.
Qed.

(** Extra X2: repeating a frame in place (x, x instead of x) never
    changes the decoded string. *)
Theorem decode_tokens_repeat_frame (l1 l2 : list Z) (x : Z) (table : token_map_t) :
  decode_tokens (l1 ++ x :: x :: l2) table = decode_tokens (l1 ++ x :: l2) table.
Proof.
  unfold decode_tokens. case_bool_decide; [done|].
  f_equal. apply decode_loop_app_congr. intros. apply decode_loop_stutter.
Qed.

(** Extra X3: decoding is incremental: the decoding of a prefix of the
    frames is a prefix of the decoding of all of them. *)
Theorem decode_tokens_prefix (l1 l2 : list Z) (table : token_map_t) :
  exists rest, decode_tokens (l1 ++ l2) table = decode_tokens l1 table ++ rest.
Proof.
  unfold decode_tokens. case_bool_decide; [exists []; done|].
  destruct (decode_loop_app_prefix table (blank_token_id table) l1 l2 None []) as [r ->].
  rewrite concat_app. eauto.
Qed.

(** Extra X4: the decoded string is the concatenation, in order, of the
    tokens of a subsequence of the frame ids, each of them mapped and
    different from the blank id: decoding never invents, reorders or
    emits the blank token. *)
Theorem decode_tokens_pieces (token_ids : list Z) (table : token_map_t) :
  exists ks, ks `sublist_of` token_ids /\
    Forall (fun k => k <> blank_token_id table /\ is_Some (table !! k)) ks /\
    decode_tokens token_ids table = concat (omap (fun k => table !! k) ks).
Proof.
  unfold decode_tokens. case_bool_decide as Hsz.
  { exists []. split; [apply sublist_nil_l|]. split; constructor. }
  destruct (decode_loop_pieces table (blank_token_id table) token_ids None [])
    as (ks & Hs & Hf & He).
  exists ks. split; [done|]. split; [done|]. by rewrite He.
Qed.

(** Extra X5: an id absent from the table emits nothing but still resets
    [previous]: with x mapped to t and not the blank, and u unmapped,
    the frames [x; u; x] decode to t twice. *)
Theorem decode_tokens_unknown_separates (table : token_map_t) (x u : Z) (t : pystr) :
  table !! x = Some t -> table !! u = None -> x <> blank_token_id table ->
  decode_tokens [x; u; x] table = t ++ t.
Proof.
  intros Hx Hu Hxb.
  assert (Hsz : size table <> 0%nat).
  { intros H. apply map_size_empty_inv in H. subst. rewrite lookup_empty in Hx. done. }
  destruct (blank_token_id_max table Hsz) as [[v Hb] _].
  assert (Hub : u <> blank_token_id table) by congruence.
  assert (Hux : u <> x) by congruence.
  unfold decode_tokens. rewrite bool_decide_false by done.
  simpl. rewrite (proj2 (Z.eqb_neq _ _) Hxb), (proj2 (Z.eqb_neq _ _) Hub).
  rewrite (bool_decide_false (Some x = Some u)) by congruence.
  rewrite (bool_decide_false (Some u = Some x)) by congruence.
  rewrite Hx, Hu. simpl. by rewrite app_nil_r.
Qed.

Lemma decode_tokens_unknown_separates_witness :
  table_5_2 !! 2 = Some DEV_BA /\ table_5_2 !! 9 = None /\ 2 <> blank_token_id table_5_2 /\
  decode_tokens [2; 9; 2] table_5_2 = DEV_BA ++ DEV_BA.
Proof.
  assert (H1 : table_5_2 !! 2 = Some DEV_BA) by reflexivity.
  assert (H2 : table_5_2 !! 9 = None) by reflexivity.
  assert (H3 : 2 <> blank_token_id table_5_2) by (vm_compute; discriminate).
  split; [exact H1|]. split; [exact H2|]. split; [exact H3|].
  apply (decode_tokens_unknown_separates table_5_2 2 9 DEV_BA H1 H2 H3).
Defined.

(* ---- the vocabulary file ---- *)


Lemma py_str_go_digits fuel n acc :
  0 <= n -> n < Z.of_nat fuel ->
  digits_val 0 (py_str_go fuel n acc) = digits_val n acc /\
  (Forall (fun c => is_digit c = true) acc ->
   Forall (fun c => is_digit c = true) (py_str_go fuel n acc)) /\
  py_str_go fuel n acc <> [].
Proof.
  revert n acc. induction fuel as [|fuel IH]; intros n acc Hn Hf; [lia|].
  cbn [py_str_go].
  assert (Hd : is_digit (48 + n mod 10) = true).
  { unfold is_digit. pose proof (Z.mod_pos_bound n 10). apply andb_true_iff; split; apply Z.leb_le; lia. }
  destruct (Z.ltb_spec n 10) as [Hlt|Hge].
  - split; [|split; [intros; by constructor|done]].
    unfold digits_val. simpl. f_equal. rewrite Z.mod_small by lia. lia.
  - assert (Hq : 0 <= n / 10 < Z.of_nat fuel).
    { split; [apply Z.div_pos; lia|]. assert (n / 10 < n) by (apply Z.div_lt; lia). lia. }
    destruct (IH (n / 10) (48 + n mod 10 :: acc) (proj1 Hq) (proj2 Hq)) as (H1 & H2 & H3).
    split; [|split; [intros; apply H2; by constructor|done]].
    rewrite H1. unfold digits_val. simpl. f_equal.
    pose proof (Z.div_mod n 10). lia.
Qed.

Lemma py_str_props (n : Z) :
  0 <= n ->
  digits_val 0 (py_str n) = n /\ Forall (fun c => is_digit c = true) (py_str n) /\
  py_str n <> [].
Proof.
  intros Hn. unfold py_str.
  destruct (py_str_go_digits (S (Z.to_nat n)) n [] Hn) as (H1 & H2 & H3); [lia|].
  split; [exact H1|]. split; [apply H2; constructor|exact H3].
Qed.

Lemma parse_digits_val acc b ds :
  Forall (fun c => is_digit c = true) ds -> ds <> [] ->
  parse_digits acc b ds = Some (digits_val acc ds).
Proof.
  revert acc b. induction ds as [|c ds IH]; intros acc b Hall Hne; [done|].
  inversion Hall as [|? ? Hc Hds]; subst. simpl. rewrite Hc.
  destruct ds as [|d ds]; [reflexivity|]. apply IH; done.
Qed.

Lemma digit_nonspace c : is_digit c = true -> py_isspace c = false.
Proof.
  unfold is_digit, py_isspace. intros H. apply andb_true_iff in H as [H1 H2].
  apply Z.leb_le in H1, H2.
  repeat (apply orb_false_iff; split);
    first [apply andb_false_iff; left; apply Z.leb_gt; lia
          |apply andb_false_iff; right; apply Z.leb_gt; lia
          |apply Z.eqb_neq; lia].
Qed.

Lemma py_lstrip_head_nonspace s c l : py_lstrip s = c :: l -> py_isspace c = false.
Proof.
  induction s as [|a s IH]; simpl; [done|].
  destruct (py_isspace a) eqn:Ha; [apply IH|]. intros [= -> _]. done.
Qed.

Lemma py_lstrip_suffix s : exists p, s = p ++ py_lstrip s.
Proof.
  induction s as [|a s IH]; simpl; [exists []; done|].
  destruct (py_isspace a); [|exists []; done].
  destruct IH as [p Hp]. exists (a :: p). simpl. by rewrite <- Hp.
Qed.

(** Stripping leaves a string that starts with non-whitespace. *)
Lemma py_strip_head_nonspace s c l : py_strip s = c :: l -> py_isspace c = false.
Proof.
  unfold py_strip. intros H.
  set (u := py_lstrip s) in H.
  assert (Hl : py_lstrip (rev u) = rev l ++ [c]).
  { rewrite <- (rev_involutive (py_lstrip (rev u))), H. reflexivity. }
  destruct (py_lstrip_suffix (rev u)) as [p Hp]. rewrite Hl in Hp.
  assert (Hu : u = c :: rev (p ++ rev l)).
  { rewrite <- (rev_involutive u), Hp. rewrite app_assoc, rev_app_distr. reflexivity. }
  apply (py_lstrip_head_nonspace s c (rev (p ++ rev l))). exact Hu.
Qed.

Lemma py_strip_trailing (u t : pystr) :
  (exists a u', u = a :: u' /\ py_isspace a = false) ->
  (exists z u', u = u' ++ [z] /\ py_isspace z = false) ->
  Forall (fun c => py_isspace c = true) t ->
  py_strip (u ++ t) = u.
Proof.
  intros (a & u1 & Hu1 & Ha) (z & u2 & Hu2 & Hz) Ht.
  unfold py_strip.
  assert (Hl : py_lstrip (u ++ t) = u ++ t) by (rewrite Hu1; simpl; by rewrite Ha).
  rewrite Hl.
  rewrite rev_app_distr, py_lstrip_spaces_app by (apply Forall_rev; exact Ht).
  rewrite Hu2, rev_app_distr. simpl. rewrite Hz. simpl. by rewrite rev_involutive.
Qed.

Lemma py_split_once_first (s rest : pystr) :
  Forall (fun c => c <> 32) s -> py_split_once 32 (s ++ 32 :: rest) = [s; rest].
Proof.
  induction s as [|c s IH]; intros Hs; simpl; [reflexivity|].
  inversion Hs as [|? ? Hc Hs']; subst.
  rewrite (proj2 (Z.eqb_neq _ _) Hc), IH by done. reflexivity.
Qed.

Lemma py_str_go_length fuel n acc (k : nat) :
  0 <= n < 10 ^ Z.of_nat k -> (1 <= k)%nat ->
  (length (py_str_go fuel n acc) <= length acc + k)%nat.
Proof.
  revert n acc k. induction fuel as [|fuel IH]; intros n acc k Hn Hk; cbn [py_str_go]; [lia|].
  destruct (Z.ltb_spec n 10) as [Hlt|Hge]; [simpl; lia|].
  destruct k as [|[|k]]; [lia|simpl in Hn; lia|].
  assert (Hq : 0 <= n / 10 < 10 ^ Z.of_nat (S k)).
  { split; [apply Z.div_pos; lia|]. apply Z.div_lt_upper_bound; [lia|].
    rewrite <- Z.pow_succ_r by lia.
    replace (Z.succ (Z.of_nat (S k))) with (Z.of_nat (S (S k))) by lia. lia. }
  specialize (IH (n / 10) (48 + n mod 10 :: acc) (S k) Hq ltac:(lia)).
  simpl length in IH. lia.
Qed.

Lemma py_str_length (n : Z) (k : nat) :
  0 <= n < 10 ^ Z.of_nat k -> (1 <= k)%nat -> (length (py_str n) <= k)%nat.
Proof.
  intros Hn Hk. unfold py_str. pose proof (py_str_go_length (S (Z.to_nat n)) n [] k Hn Hk).
  simpl length in *. lia.
Qed.

Lemma digit_c_nonspace c : is_digit c = true -> c_isspace c = false.
Proof.
  unfold is_digit, c_isspace. intros H. apply andb_true_iff in H as [H1 H2].
  apply Z.leb_le in H1, H2. apply orb_false_iff; split; [apply Z.eqb_neq; lia|].
  apply andb_false_iff. right. apply Z.leb_gt; lia.
Qed.

Lemma py_int_digits ds :
  Forall (fun c => is_digit c = true) ds -> ds <> [] ->
  (length ds <= INT_MAX_STR_DIGITS)%nat ->
  py_int ds = Some (digits_val 0 ds).
Proof.
  intros Hall Hne Hlen. unfold py_int.
  assert (Ha : to_ascii_digits ds = ds).
  { unfold to_ascii_digits. rewrite (proj2 (forallb_forall _ ds)); [done|].
    intros c Hc. rewrite List.Forall_forall in Hall. specialize (Hall c Hc).
    unfold is_digit in Hall. apply andb_true_iff in Hall as [_ H2].
    apply Z.leb_le in H2. apply Z.ltb_lt. lia. }
  assert (Hs : c_strip ds = ds).
  { unfold c_strip. destruct ds as [|d ds']; [done|].
    inversion Hall as [|? ? Hd _]; subst. cbn [c_lstrip]. rewrite digit_c_nonspace by done.
    destruct (exists_last Hne) as [u' [z Hz]]. rewrite Hz in Hall |- *.
    apply Forall_app in Hall as [_ Hzd]. inversion Hzd; subst.
    rewrite rev_app_distr. cbn [rev app c_lstrip]. rewrite digit_c_nonspace by done.
    cbn [rev]. by rewrite rev_involutive. }
  assert (Hf : List.filter is_digit ds = ds).
  { clear -Hall. induction Hall as [|c l Hc _ IH]; [done|]. simpl. by rewrite Hc, IH. }
  assert (Hp : parse_number ds = Some (digits_val 0 ds)).
  { unfold parse_number. rewrite Hf, (proj2 (Nat.leb_le _ _) Hlen).
    apply parse_digits_val; done. }
  rewrite Ha, Hs. destruct ds as [|d ds]; [done|].
  inversion Hall as [|? ? Hd _]; subst.
  assert (Hdr : d = 48 \/ d = 49 \/ d = 50 \/ d = 51 \/ d = 52 \/ d = 53 \/ d = 54
                \/ d = 55 \/ d = 56 \/ d = 57).
  { unfold is_digit in Hd. apply andb_true_iff in Hd as [H1 H2].
    apply Z.leb_le in H1, H2. lia. }
  destruct Hdr as [->|[->|[->|[->|[->|[->|[->|[->|[->| ->]]]]]]]]]; exact Hp.
Qed.

(** The line [f"{s} {i}\n"] loads back as the entry [i -> s]. *)
Lemma line_entry_export (s : pystr) (i : Z) :
  nonspace_token s -> 0 <= i < 10 ^ 4300 ->
  line_entry (s ++ [32] ++ py_str i ++ [10]) = Some (i, s).
Proof.
  intros [Hne Hs] Hi. destruct (py_str_props i (proj1 Hi)) as (Hv & Hd & Hdne).
  assert (Hlen : (length (py_str i) <= INT_MAX_STR_DIGITS)%nat).
  { apply py_str_length; [exact Hi|unfold INT_MAX_STR_DIGITS; lia]. }
  unfold line_entry.
  assert (Hstrip : py_strip (s ++ [32] ++ py_str i ++ [10]) = s ++ [32] ++ py_str i).
  { replace (s ++ [32] ++ py_str i ++ [10]) with ((s ++ [32] ++ py_str i) ++ [10])
      by (rewrite <- !app_assoc; reflexivity).
    apply py_strip_trailing; [| |repeat constructor].
    - destruct s as [|a s']; [done|]. inversion Hs; subst. exists a, (s' ++ [32] ++ py_str i).
      done.
    - destruct (exists_last Hdne) as [u' [z Hz]]. rewrite Hz.
      exists z, (s ++ [32] ++ u'). split; [by rewrite <- !app_assoc|].
      rewrite Hz in Hd. apply Forall_app in Hd as [_ Hzd]. inversion Hzd; subst.
      by apply digit_nonspace. }
  rewrite Hstrip. destruct s as [|a s']; [done|]. cbn [app].
  change (a :: s' ++ 32 :: py_str i) with ((a :: s') ++ 32 :: py_str i).
  unfold parse_token_line. rewrite py_split_once_first.
  - rewrite py_int_digits by done. by rewrite Hv.
  - eapply Forall_impl; [exact Hs|]. intros c Hc ->. discriminate.
Qed.

Lemma omap_cons_eq {A B} (f : A -> option B) (x : A) (l : list A) :
  omap f (x :: l) = match f x with Some y => y :: omap f l | None => omap f l end.
Proof. reflexivity. Qed.

Lemma omap_line_entry_imap (vocab : list pystr) (k : nat) :
  Forall nonspace_token vocab -> Z.of_nat (k + length vocab) < 10 ^ 4300 ->
  omap line_entry (imap (fun i s => s ++ [32] ++ py_str (Z.of_nat (k + i)) ++ [10]) vocab)
  = imap (fun i s => (Z.of_nat (k + i), s)) vocab.
Proof.
  revert k. induction vocab as [|s vocab IH]; intros k Hall Hb; [done|].
  inversion Hall as [|? ? Hs Hv]; subst.
  assert (Hk : 0 <= Z.of_nat k < 10 ^ 4300).
  { simpl length in Hb. revert Hb. generalize (10 ^ 4300). intros B Hb. lia. }
  rewrite !imap_cons, omap_cons_eq. simpl Nat.add. rewrite line_entry_export by (rewrite ?Nat.add_0_r; done).
  f_equal. assert (Hb' : Z.of_nat (S k + length vocab) < 10 ^ 4300).
  { simpl length in Hb. revert Hb. generalize (10 ^ 4300). intros B Hb. lia. }
  specialize (IH (S k) Hv Hb').
  replace (imap ((fun i s0 => s0 ++ [32] ++ py_str (Z.of_nat (k + i)) ++ [10]) ∘ S) vocab)
    with (imap (fun i s0 => s0 ++ [32] ++ py_str (Z.of_nat (S k + i)) ++ [10]) vocab).
  2:{ apply imap_ext. intros. simpl. do 4 f_equal. lia. }
  rewrite IH. apply imap_ext. intros. simpl. f_equal. lia.
Qed.

Lemma export_entries (vocab : list pystr) :
  Forall nonspace_token vocab -> Z.of_nat (length vocab) < 10 ^ 4300 ->
  omap line_entry (export_lines vocab)
  = imap (fun i s => (Z.of_nat i, s)) vocab
    ++ [(Z.of_nat (length vocab), s2py "<blk>")].
Proof.
  intros Hall Hb. unfold export_lines. rewrite omap_app.
  pose proof (omap_line_entry_imap vocab 0 Hall Hb) as H. simpl Nat.add in H.
  rewrite H. f_equal. rewrite omap_cons_eq, line_entry_export; [reflexivity| |].
  - split; [discriminate|repeat constructor].
  - revert Hb. generalize (10 ^ 4300). intros B Hb. lia.
Qed.

(** Extra X6: the tokens file written by [export()] loads back as the
    vocabulary it was written from: index i < n maps to the i-th entry,
    index n to "<blk>", every other index to nothing, and the blank id
    is n, provided each entry is non-empty and has no whitespace and n
    has at most 4300 digits (the limit of [int] and [str] in CPython). *)
Theorem export_tokens_roundtrip (vocab : list pystr) :
  Forall (fun s => s <> [] /\ Forall (fun c => py_isspace c = false) s) vocab ->
  Z.of_nat (length vocab) < 10 ^ 4300 ->
  let n := Z.of_nat (length vocab) in
  let tm := load_token_map (TFLines (export_lines vocab)) in
  (forall i, tm !! i = if (0 <=? i) && (i <? n) then vocab !! Z.to_nat i
                       else if i =? n then Some (s2py "<blk>") else None) /\
  blank_token_id tm = n.
Proof.
  intros Hall Hb n tm.
  set (kl := imap (fun i s => (Z.of_nat i, s)) vocab ++ [(n, s2py "<blk>")]).
  assert (Htm : tm = list_to_map (reverse kl)).
  { unfold tm. simpl. rewrite load_lines_list_to_map, export_entries by done. reflexivity. }
  assert (Hkeys : kl.*1 = (Z.of_nat <$> seq 0 (length vocab)) ++ [n]).
  { unfold kl. rewrite fmap_app, fmap_imap. simpl. f_equal.
    apply (imap_seq_0 vocab Z.of_nat). }
  assert (Hnd : NoDup (reverse kl).*1).
  { rewrite fmap_reverse, reverse_Permutation, Hkeys.
    apply NoDup_app. split; [apply NoDup_fmap_2; [apply _|apply NoDup_seq]|].
    split; [|apply NoDup_singleton].
    intros x Hx. apply list_elem_of_fmap in Hx as [j [-> Hj]].
    apply elem_of_seq in Hj. intros Hn%list_elem_of_singleton. unfold n in Hn. lia. }
  assert (Hin : forall i x, (i, x) ∈ kl <->
            (0 <= i < n /\ vocab !! Z.to_nat i = Some x) \/ (i = n /\ x = s2py "<blk>")).
  { intros i x. unfold kl. rewrite elem_of_app, list_elem_of_singleton, elem_of_lookup_imap.
    split.
    - intros [(j & y & [= -> ->] & Hj)|[= -> ->]]; [left|right; done].
      pose proof (lookup_lt_Some _ _ _ Hj). rewrite Nat2Z.id. unfold n. split; [lia|done].
    - intros [[Hi Hx]|[-> ->]]; [left|right; done].
      exists (Z.to_nat i), x. split; [f_equal; lia|done]. }
  assert (Hlook : forall i, tm !! i = if (0 <=? i) && (i <? n) then vocab !! Z.to_nat i
                         else if i =? n then Some (s2py "<blk>") else None).
  { intros i. rewrite Htm.
    destruct (Z.leb_spec 0 i), (Z.ltb_spec i n); simpl.
    - destruct (lookup_lt_is_Some_2 vocab (Z.to_nat i)) as [x Hx]; [unfold n in *; lia|].
      rewrite Hx. apply elem_of_list_to_map_1; [done|].
      apply elem_of_reverse, Hin. left. split; [lia|done].
    - destruct (Z.eqb_spec i n) as [->|Hne].
      + apply elem_of_list_to_map_1; [done|]. apply elem_of_reverse, Hin. by right.
      + apply not_elem_of_list_to_map_1. rewrite fmap_reverse, elem_of_reverse, Hkeys.
        rewrite elem_of_app, list_elem_of_singleton, list_elem_of_fmap.
        intros [[j [-> Hj]]|]; [apply elem_of_seq in Hj; unfold n in *; lia|done].
    - assert (Hne : i <> n) by lia. rewrite (proj2 (Z.eqb_neq _ _) Hne).
      apply not_elem_of_list_to_map_1. rewrite fmap_reverse, elem_of_reverse, Hkeys.
      rewrite elem_of_app, list_elem_of_singleton, list_elem_of_fmap.
      intros [[j [-> Hj]]|]; [lia|done].
    - assert (Hne : i <> n) by lia. rewrite (proj2 (Z.eqb_neq _ _) Hne).
      apply not_elem_of_list_to_map_1. rewrite fmap_reverse, elem_of_reverse, Hkeys.
      rewrite elem_of_app, list_elem_of_singleton, list_elem_of_fmap.
      intros [[j [-> Hj]]|]; [lia|done]. }
  split; [exact Hlook|].
  assert (Hn : tm !! n = Some (s2py "<blk>")).
  { rewrite Hlook. rewrite Z.eqb_refl. destruct (Z.ltb_spec n n); [lia|].
    by rewrite andb_false_r. }
  assert (Hsz : size tm <> 0%nat).
  { intros H. apply map_size_empty_inv in H. rewrite H, lookup_empty in Hn. done. }
  apply (is_max_key_unique tm); [by apply blank_token_id_max|].
  split; [rewrite Hn; eauto|].
  intros k [v Hk]. rewrite Hlook in Hk.
  destruct (Z.leb_spec 0 k), (Z.ltb_spec k n); simpl in Hk; try lia;
    destruct (Z.eqb_spec k n); try lia; done.
Qed.

Lemma export_tokens_roundtrip_witness :
  Forall (fun s => s <> [] /\ Forall (fun c => py_isspace c = false) s) [DEV_A; DEV_BA] /\
  Z.of_nat (length [DEV_A; DEV_BA]) < 10 ^ 4300 /\
  blank_token_id (load_token_map (TFLines (export_lines [DEV_A; DEV_BA]))) = 2.
Proof.
  assert (H : Forall (fun s => s <> [] /\ Forall (fun c => py_isspace c = false) s)
                [DEV_A; DEV_BA]) by (repeat constructor; discriminate).
  assert (Hb : Z.of_nat (length [DEV_A; DEV_BA]) < 10 ^ 4300)
    by (apply Z.ltb_lt; vm_compute; reflexivity).
  split; [exact H|]. split; [exact Hb|].
  apply (proj2 (export_tokens_roundtrip [DEV_A; DEV_BA] H Hb)).
Defined.

Lemma py_split_once_head (sep : Z) (s t : pystr) (rest : list pystr) :
  py_split_once sep s = t :: rest ->
  ~ In sep t /\ (forall c s', s = c :: s' -> c <> sep -> t <> []).
Proof.
  revert t rest. induction s as [|c s IH]; intros t rest Hs; simpl in Hs.
  { injection Hs as <- _. split; [intros []|]. intros ? ? [=]. }
  destruct (Z.eqb_spec c sep) as [->|Hc].
  { injection Hs as <- _. split; [intros []|]. intros ? ? [= -> _]. done. }
  destruct (py_split_once sep s) as [|w rest'] eqn:Hw.
  - injection Hs as <- _. split; [simpl; intuition|]. intros; discriminate.
  - injection Hs as <- _. destruct (IH w rest' eq_refl) as [Hn _].
    split; [|intros; discriminate]. simpl. intuition.
Qed.

Lemma line_entry_token_shape (line : pystr) (i : Z) (t : pystr) :
  line_entry line = Some (i, t) -> t <> [] /\ ~ In 32 t.
Proof.
  unfold line_entry. destruct (py_strip line) as [|c l] eqn:Hs; [discriminate|].
  assert (Hc : py_isspace c = false) by (eapply py_strip_head_nonspace; exact Hs).
  assert (Hc32 : c <> 32) by (intros ->; discriminate).
  unfold parse_token_line.
  destruct (py_split_once 32 (c :: l)) as [|t' [|idx [|]]] eqn:Hsp; try discriminate.
  destruct (py_int idx); [|discriminate]. intros [= <- <-].
  destruct (py_split_once_head 32 _ _ _ Hsp) as [Hn Hne].
  split; [exact (Hne c l eq_refl Hc32)|exact Hn].
Qed.

(** Extra X7: every token of a loaded table is non-empty and contains
    no space, whatever the file. *)
Theorem load_token_map_token_shape (f : token_file) (i : Z) (t : pystr) :
  load_token_map f !! i = Some t -> t <> [] /\ ~ In 32 t.
Proof.
  destruct f as [|lines|]; simpl; [by rewrite lookup_empty| |by rewrite lookup_empty].
  rewrite load_lines_list_to_map. intros H.
  apply elem_of_list_to_map_2, elem_of_reverse, list_elem_of_omap in H
    as [line [_ Hl]].
  by apply (line_entry_token_shape line i).
Qed.

Lemma load_token_map_token_shape_witness :
  load_token_map demo_tokens !! 1 = Some (s2py "<blk>") /\ s2py "<blk>" <> [] /\ ~ In 32 (s2py "<blk>").
Proof.
  assert (H : load_token_map demo_tokens !! 1 = Some (s2py "<blk>")) by reflexivity.
  split; [exact H|]. apply (load_token_map_token_shape demo_tokens 1 _ H).
Defined.

(* ---- the pipeline and the HTTP handler ---- *)


Lemma asr_transcribe_eq (session : onnx_session) (tokens : token_file)
    (cache : option token_map_t) (a : audio_file) :
  asr_transcribe session tokens cache a =
  match a with
  | AudioBad => ([EvPreprocess; EvAudioLoad], inl ExcAudioLoad)
  | AudioOK n =>
      match session (1 + n / 160)%N with
      | None => ([EvPreprocess; EvAudioLoad; EvInfer], inl ExcInference)
      | Some logits =>
          match cache with
          | Some tm =>
              ([EvPreprocess; EvAudioLoad; EvInfer; EvDecode],
               inr (post_process_text (decode_tokens (map np_argmax logits) tm), Some tm))
          | None =>
              ([EvPreprocess; EvAudioLoad; EvInfer; EvLoadTokens; EvDecode],
               inr (post_process_text (decode_tokens (map np_argmax logits)
                                         (load_token_map tokens)),
                    Some (load_token_map tokens)))
          end
      end
  end.
Proof.
  destruct a as [n|]; [|reflexivity].
  unfold asr_transcribe, preprocess_audio, run_inference. simpl.
  destruct (session _), cache; reflexivity.
Qed.

Lemma transcribe_endpoint_eq (session : onnx_session) (tokens : token_file)
    (cache : option token_map_t) (file : upload) :
  transcribe_endpoint session tokens cache file =
  match upload_precheck file with
  | Some detail => ([], inl (ExcHTTP 400 detail))
  | None =>
      match upload_audio file with
      | AudioBad => ([EvAudioLoad], inl (ExcHTTP 400 DURATION_MSG))
      | AudioOK n =>
          if duration_ok n then
            let '(evs, r) := asr_transcribe session tokens cache (AudioOK n) in
            (EvAudioLoad :: evs, as_http_500 r)
          else ([EvAudioLoad], inl (ExcHTTP 400 DURATION_MSG))
      end
  end.
Proof.
  unfold transcribe_endpoint, upload_precheck, content_type_ok, filename_ok.
  destruct (content_type file) as [ct|]; [destruct (py_contains _ _)|]; [|reflexivity..].
  destruct (filename file) as [fn|]; [destruct (py_endswith _ _)|]; [|reflexivity..].
  destruct (MAX_UPLOAD_BYTES <? content_len file); [reflexivity|].
  simpl. destruct (upload_audio file) as [n|]; [|reflexivity].
  rewrite validate_audio_ok. fold (duration_ok n).
  destruct (duration_ok n); [|reflexivity]. simpl.
  rewrite asr_transcribe_eq. destruct (session _); [|reflexivity]. destruct cache; reflexivity.
Qed.

(** Extra X8: an upload whose content type is missing or does not
    contain "audio" (case-insensitively) is refused with HTTP 400
    before anything is read. *)
Theorem transcribe_endpoint_rejects_non_audio (session : onnx_session) (tokens : token_file)
    (cache : option token_map_t) (file : upload) :
  match content_type file with
  | Some ct => py_contains (s2py "audio") (py_lower ct)
  | None => false
  end = false ->
  transcribe_endpoint session tokens cache file
  = ([], inl (ExcHTTP 400 (s2py "Invalid file type. Only audio files are supported."))).
Proof.
  intros H. rewrite transcribe_endpoint_eq. unfold upload_precheck, content_type_ok.
  by rewrite H.
Qed.

(** Extra X9: an audio upload whose file name is missing or does not end
    in ".wav" (case-insensitively) is refused with HTTP 400 before
    anything is read. *)
Theorem transcribe_endpoint_rejects_non_wav (session : onnx_session) (tokens : token_file)
    (cache : option token_map_t) (file : upload) :
  match content_type file with
  | Some ct => py_contains (s2py "audio") (py_lower ct)
  | None => false
  end = true ->
  match filename file with
  | Some fn => py_endswith (py_lower fn) (s2py ".wav")
  | None => false
  end = false ->
  transcribe_endpoint session tokens cache file
  = ([], inl (ExcHTTP 400 (s2py "Only .wav files are supported"))).
Proof.
  intros H1 H2. rewrite transcribe_endpoint_eq. unfold upload_precheck, content_type_ok, filename_ok.
  by rewrite H1, H2.
Qed.

(** Extra X10: an audio .wav upload larger than 10 MiB is refused with
    HTTP 400 before anything is read. *)
Theorem transcribe_endpoint_rejects_large (session : onnx_session) (tokens : token_file)
    (cache : option token_map_t) (file : upload) :
  match content_type file with
  | Some ct => py_contains (s2py "audio") (py_lower ct)
  | None => false
  end = true ->
  match filename file with
  | Some fn => py_endswith (py_lower fn) (s2py ".wav")
  | None => false
  end = true ->
  10 * 1024 * 1024 < content_len file ->
  transcribe_endpoint session tokens cache file
  = ([], inl (ExcHTTP 400 (s2py "File too large. Maximum size is 10MB."))).
Proof.
  intros H1 H2 H3. rewrite transcribe_endpoint_eq. unfold upload_precheck, content_type_ok, filename_ok.
  rewrite H1, H2. simpl. unfold MAX_UPLOAD_BYTES. by rewrite (proj2 (Z.ltb_lt _ _) H3).
Qed.

Lemma precheck_none (file : upload) :
  match content_type file with
  | Some ct => py_contains (s2py "audio") (py_lower ct)
  | None => false
  end = true ->
  match filename file with
  | Some fn => py_endswith (py_lower fn) (s2py ".wav")
  | None => false
  end = true ->
  content_len file <= 10 * 1024 * 1024 ->
  upload_precheck file = None.
Proof.
  intros H1 H2 H3. unfold upload_precheck, content_type_ok, filename_ok.
  rewrite H1, H2. simpl. unfold MAX_UPLOAD_BYTES. by rewrite (proj2 (Z.ltb_ge _ _) H3).
Qed.

(** Extra X11: an upload that passes the three checks but cannot be
    decoded is refused with the duration message (HTTP 400), after one
    load attempt and without feature extraction. *)
Theorem transcribe_endpoint_undecodable (session : onnx_session) (tokens : token_file)
    (cache : option token_map_t) (file : upload) :
  match content_type file with
  | Some ct => py_contains (s2py "audio") (py_lower ct)
  | None => false
  end = true ->
  match filename file with
  | Some fn => py_endswith (py_lower fn) (s2py ".wav")
  | None => false
  end = true ->
  content_len file <= 10 * 1024 * 1024 ->
  upload_audio file = AudioBad ->
  transcribe_endpoint session tokens cache file
  = ([EvAudioLoad], inl (ExcHTTP 400 (s2py "Audio duration must be between 5-10 seconds"))).
Proof.
  intros H1 H2 H3 H4. rewrite transcribe_endpoint_eq, precheck_none by done.
  by rewrite H4.
Qed.

(** Extra X12: an upload that passes the checks and lasts between 5 and
    10 seconds runs the pipeline after the duration check's load: a
    transcription it returns is the handler's result, and an error it
    raises becomes an HTTP 500 error. *)
Theorem transcribe_endpoint_accepts (session : onnx_session) (tokens : token_file)
    (cache : option token_map_t) (file : upload) (n : N) :
  match content_type file with
  | Some ct => py_contains (s2py "audio") (py_lower ct)
  | None => false
  end = true ->
  match filename file with
  | Some fn => py_endswith (py_lower fn) (s2py ".wav")
  | None => false
  end = true ->
  content_len file <= 10 * 1024 * 1024 ->
  upload_audio file = AudioOK n ->
  (5 <= audio_duration n /\ audio_duration n <= 10)%Q ->
  let r := transcribe_endpoint session tokens cache file in
  let p := asr_transcribe session tokens cache (AudioOK n) in
  fst r = EvAudioLoad :: fst p /\
  (forall v, snd p = inr v -> snd r = inr v) /\
  (forall e, snd p = inl e -> exists detail, snd r = inl (ExcHTTP 500 detail)).
Proof.
  intros H1 H2 H3 H4 [H5 H6] r p. unfold r, p.
  rewrite transcribe_endpoint_eq, precheck_none by done.
  rewrite H4. unfold duration_ok. apply Qle_bool_iff in H5, H6. rewrite H5, H6. simpl.
  destruct (asr_transcribe session tokens cache (AudioOK n)) as [evs [e|v]] eqn:Ha.
  - rewrite asr_transcribe_eq in Ha.
    assert (He : match e with ExcHTTP _ _ => False | _ => True end).
    { destruct (session _); [destruct cache; discriminate|]. by injection Ha as _ <-. }
    simpl. split; [done|]. split; [discriminate|].
    intros e' [= <-]. destruct e; [| |done]; eauto.
  - simpl. split; [done|]. split; [by intros v' [= <-]|discriminate].
Qed.

(** Extra X13: the handler only ever fails with HTTP 400 or HTTP 500. *)
Theorem transcribe_endpoint_http_errors (session : onnx_session) (tokens : token_file)
    (cache : option token_map_t) (file : upload) (e : py_exc) :
  snd (transcribe_endpoint session tokens cache file) = inl e ->
  exists detail, e = ExcHTTP 400 detail \/ e = ExcHTTP 500 detail.
Proof.
  rewrite transcribe_endpoint_eq.
  destruct (upload_precheck file) as [d|]; [intros [= <-]; eauto|].
  destruct (upload_audio file) as [n|]; [|intros [= <-]; eauto].
  destruct (duration_ok n); [|intros [= <-]; eauto].
  rewrite asr_transcribe_eq. destruct (session _); [|intros [= <-]; eauto].
  destruct cache; discriminate.
Qed.

Lemma py_split_go_nonspace_app (w s : pystr) :
  Forall (fun c => py_isspace c = false) w ->
  py_split_go (w ++ s) = let '(w', ws) := py_split_go s in (w ++ w', ws).
Proof.
  induction 1 as [|c w Hc _ IH]; simpl; [by destruct (py_split_go s)|].
  rewrite IH. destruct (py_split_go s). by rewrite Hc.
Qed.

Lemma py_split_go_sep_words (ws : list pystr) :
  Forall good_word ws -> py_split_go (sep_words ws) = ([], ws).
Proof.
  induction 1 as [|y ys [Hne Hy] _ IH]; [reflexivity|].
  change (sep_words (y :: ys)) with (32 :: y ++ sep_words ys).
  cbn [py_split_go]. rewrite py_split_go_nonspace_app, IH by done.
  rewrite app_nil_r. destruct y; [done|reflexivity].
Qed.

Lemma py_split_join (ws : list pystr) :
  Forall good_word ws -> py_split (py_join [32] ws) = ws.
Proof.
  intros Hws. destruct ws as [|x xs]; [reflexivity|].
  inversion Hws as [|? ? [Hne Hx] Hxs]; subst.
  rewrite py_join_sep_words. unfold py_split.
  rewrite py_split_go_nonspace_app, py_split_go_sep_words by done.
  rewrite app_nil_r. destruct x; [done|reflexivity].
Qed.

Lemma py_split_good (s : pystr) : Forall good_word (py_split s).
Proof.
  unfold py_split. destruct (py_split_go s) as [w ws] eqn:Hgo.
  destruct (py_split_go_words _ _ _ Hgo) as [Hw Hws].
  destruct w as [|a w]; simpl; [done|]. constructor; [|done]. split; done.
Qed.

Lemma post_process_text_fixed (text : pystr) :
  post_process_text text <> [] /\
  post_process_text (post_process_text text) = post_process_text text.
Proof.
  assert (Hp : post_process_text text
               = match py_join [32] (py_split text) with [] => NO_SPEECH | j => j end).
  { unfold post_process_text. change (s2py " ") with [32].
    rewrite join_split_stripped. by destruct (py_join [32] (py_split text)). }
  rewrite Hp. destruct (py_join [32] (py_split text)) as [|z l] eqn:Hj.
  - split; [unfold NO_SPEECH; simpl; discriminate|reflexivity].
  - split; [discriminate|]. rewrite <- Hj.
    unfold post_process_text at 1. change (s2py " ") with [32].
    rewrite py_split_join by apply py_split_good.
    rewrite join_split_stripped, Hj. reflexivity.
Qed.

(** Extra X14: a successful transcription is never empty and is already
    normalised: post-processing it again changes nothing. *)
Theorem asr_transcribe_output_normalized (session : onnx_session) (tokens : token_file)
    (cache : option token_map_t) (a : audio_file) (text : pystr) (cache' : option token_map_t) :
  snd (asr_transcribe session tokens cache a) = inr (text, cache') ->
  text <> [] /\ post_process_text text = text.
Proof.
  rewrite asr_transcribe_eq.
  destruct a as [n|]; [|discriminate].
  destruct (session _); [|discriminate].
  destruct cache; intros [= <- _]; apply post_process_text_fixed.
Qed.

(** Extra X15: an unreadable file fails the pipeline with the load error
    before inference, and a failing session fails it with the inference
    error before the token file is read or anything is decoded. *)
Theorem asr_transcribe_failure_propagates (session : onnx_session) (tokens : token_file)
    (cache : option token_map_t) (a : audio_file) :
  match a with
  | AudioBad => True
  | AudioOK n => session (1 + n / 160)%N = None
  end ->
  asr_transcribe session tokens cache a
  = match a with
    | AudioBad => ([EvPreprocess; EvAudioLoad], inl ExcAudioLoad)
    | AudioOK _ => ([EvPreprocess; EvAudioLoad; EvInfer], inl ExcInference)
    end.
Proof.
  rewrite asr_transcribe_eq. destruct a as [n|]; [|reflexivity].
  intros H. by rewrite H.
Qed.

(** Extra X16: audio accepted by [validate_audio] gives features of
    between 501 and 1001 time steps. *)
Theorem validate_then_preprocess_frames (f : audio_file) :
  snd (validate_audio f) = inr true ->
  exists T, snd (preprocess_audio f) = inr T /\ (501 <= T <= 1001)%N.
Proof.
  destruct f as [n|]; [|discriminate].
  rewrite validate_audio_ok. simpl. intros [= H].
  apply andb_prop in H as [H1 H2]. apply Qle_bool_iff in H1, H2.
  unfold audio_duration, Qle in H1, H2. simpl in H1, H2.
  exists (1 + n / 160)%N. split; [reflexivity|].
  pose proof (N.div_mod n 160 ltac:(discriminate)) as Hd.
  pose proof (N.mod_lt n 160 ltac:(discriminate)) as Hm.
  revert Hd Hm. generalize (n / 160)%N (n mod 160)%N. intros q r Hd Hm. lia.
Qed.

Lemma argmax_go_spec (pre rest : list Z) (bi bv : Z) :
  0 <= bi < Z.of_nat (length pre) ->
  pre !! Z.to_nat bi = Some bv ->
  (forall j v, pre !! j = Some v -> v <= bv /\ ((j < Z.to_nat bi)%nat -> v < bv)) ->
  first_max (pre ++ rest) (argmax_go bi bv (Z.of_nat (length pre)) rest).
Proof.
  revert pre bi bv. induction rest as [|v rest IH]; intros pre bi bv Hb Hl Hall; simpl.
  { rewrite app_nil_r. split; [done|]. eauto. }
  replace (pre ++ v :: rest) with ((pre ++ [v]) ++ rest) by (by rewrite <- app_assoc).
  replace (Z.of_nat (length pre) + 1) with (Z.of_nat (length (pre ++ [v])))
    by (rewrite length_app; simpl; lia).
  destruct (Z.ltb_spec bv v) as [Hlt|Hge]; apply IH.
  - rewrite length_app. simpl. lia.
  - rewrite Nat2Z.id. rewrite lookup_app_r by lia. by rewrite Nat.sub_diag.
  - intros j w Hj. rewrite Nat2Z.id.
    apply lookup_app_Some in Hj as [Hj|[Hj1 Hj2]].
    + pose proof (lookup_lt_Some _ _ _ Hj). destruct (Hall j w Hj) as [Hw _]. split; [lia|]. lia.
    + apply list_lookup_singleton_Some in Hj2 as [_ ->]. split; [lia|]. lia.
  - rewrite length_app. simpl. lia.
  - rewrite lookup_app_l by lia. done.
  - intros j w Hj.
    apply lookup_app_Some in Hj as [Hj|[Hj1 Hj2]]; [by apply Hall|].
    apply list_lookup_singleton_Some in Hj2 as [_ ->]. split; [lia|]. lia.
Qed.

(** Extra X17: on a non-empty row, [np.argmax] returns a valid index of a
    maximum, and the first one: every earlier value is strictly
    smaller. *)
Theorem np_argmax_first_max (row : list Z) :
  row <> [] ->
  let k := np_argmax row in
  0 <= k < Z.of_nat (length row) /\
  exists m, row !! Z.to_nat k = Some m /\
    forall j v, row !! j = Some v -> v <= m /\ ((j < Z.to_nat k)%nat -> v < m).
Proof.
  intros Hne. destruct row as [|v row]; [done|].
  apply (argmax_go_spec [v] row 0 v); [simpl; lia|done|].
  intros [|j] w Hj; [injection Hj as ->; lia|done].
Qed.

Lemma np_argmax_first_max_witness :
  [1; 5; 5; 2] <> [] /\ np_argmax [1; 5; 5; 2] = 1 /\
  0 <= np_argmax [1; 5; 5; 2] < 4.
Proof.
  assert (H : [1; 5; 5; 2] <> []) by discriminate.
  split; [exact H|]. split; [reflexivity|].
  apply (proj1 (np_argmax_first_max [1; 5; 5; 2] H)).
Defined.

Lemma token_file_reads_app (evs evs' : list event) :
  token_file_reads (evs ++ evs') = (token_file_reads evs + token_file_reads evs')%nat.
Proof. unfold token_file_reads. by rewrite filter_app, length_app. Qed.

Ltac no_read :=
  cbn -[token_file_reads];
  match goal with
  | |- context [token_file_reads ?L] =>
      assert (token_file_reads L = 0%nat) as -> by reflexivity
  end;
  split; [done|]; split; [lia|destruct (token_cache _); lia].

Lemma handle_request_cache (session : onnx_session) (tokens : token_file) (sv : service)
    (file : upload) (t : Q) :
  let '(evs, r, sv') := handle_request session tokens sv file t in
  (is_Some (token_cache sv) -> is_Some (token_cache sv')) /\
  ((1 <= token_file_reads evs)%nat -> is_Some (token_cache sv')) /\
  (token_file_reads evs <= match token_cache sv with Some _ => 0 | None => 1 end)%nat.
Proof.
  unfold handle_request. rewrite transcribe_endpoint_eq.
  destruct (upload_precheck file) as [d|]; [no_read|].
  destruct (upload_audio file) as [n|]; [|no_read].
  destruct (duration_ok n); [|no_read].
  rewrite asr_transcribe_eq. destruct (session _); [|no_read].
  destruct (token_cache sv); simpl; (split; [eauto|]); (split; [eauto|]); vm_compute; lia.
Qed.

Lemma serve_reads (session : onnx_session) (tokens : token_file) (reqs : list (upload * Q))
    (sv : service) :
  (token_file_reads (fst (fst (serve session tokens sv reqs)))
   <= match token_cache sv with Some _ => 0 | None => 1 end)%nat.
Proof.
  revert sv. induction reqs as [|[file t] reqs IH]; intros sv; simpl; [apply Nat.le_0_l|].
  pose proof (handle_request_cache session tokens sv file t) as Hc.
  destruct (handle_request session tokens sv file t) as [[evs r] sv'].
  pose proof (IH sv') as IH'.
  destruct (serve session tokens sv' reqs) as [[evs' rs] sv'']. simpl in *.
  rewrite token_file_reads_app. destruct Hc as (H1 & H2 & H3).
  destruct (token_cache sv) as [tm|].
  - destruct (H1 ltac:(eauto)) as [tm' Htm']. rewrite Htm' in IH'. lia.
  - destruct (token_cache sv') as [tm'|] eqn:Hsv'.
    + lia.
    + assert (token_file_reads evs = 0%nat).
      { destruct (token_file_reads evs) as [|k] eqn:Hk; [done|].
        destruct (H2 ltac:(lia)) as [x Hx]. discriminate. }
      lia.
Qed.

(** Extra X18: over any sequence of requests served by one process, the
    token file is read at most once. *)
Theorem serve_reads_token_file_once (session : onnx_session) (tokens : token_file)
    (reqs : list (upload * Q)) :
  (token_file_reads (fst (fst (serve session tokens service0 reqs))) <= 1)%nat.
Proof. apply (serve_reads session tokens reqs service0). Qed.

Lemma record_request_props (st : stats_t) (ok : bool) (t : Q) :
  0 <= successful_transcriptions st ->
  let st' := record_request st ok t in
  total_requests st' = total_requests st + 1 /\
  successful_transcriptions st' + failed_transcriptions st' - total_requests st'
  = successful_transcriptions st + failed_transcriptions st - total_requests st /\
  0 <= successful_transcriptions st' /\
  (average_processing_time st' * inject_Z (successful_transcriptions st')
   == average_processing_time st * inject_Z (successful_transcriptions st)
      + (if ok then t else 0))%Q.
Proof.
  intros Hs. destruct ok; simpl; (split; [done|]); (split; [lia|]); (split; [lia|]).
  - replace (successful_transcriptions st + 1 - 1) with (successful_transcriptions st) by lia.
    assert (Hn : ~ (inject_Z (successful_transcriptions st + 1) == 0)%Q).
    { unfold Qeq. simpl. lia. }
    field. exact Hn.
  - ring.
Qed.

Lemma handle_request_stats (session : onnx_session) (tokens : token_file) (sv : service)
    (file : upload) (t : Q) :
  let '(_, r, sv') := handle_request session tokens sv file t in
  stats sv' = record_request (stats sv) (if r then false else true) t.
Proof.
  unfold handle_request.
  destruct (transcribe_endpoint session tokens (token_cache sv) file) as [evs [e|[text c']]];
    reflexivity.
Qed.

Lemma serve_stats_gen (session : onnx_session) (tokens : token_file) (reqs : list (upload * Q))
    (sv : service) :
  0 <= successful_transcriptions (stats sv) ->
  let '(_, rs, sv') := serve session tokens sv reqs in
  total_requests (stats sv') = total_requests (stats sv) + Z.of_nat (length reqs) /\
  successful_transcriptions (stats sv') + failed_transcriptions (stats sv')
    - total_requests (stats sv')
  = successful_transcriptions (stats sv) + failed_transcriptions (stats sv)
    - total_requests (stats sv) /\
  0 <= successful_transcriptions (stats sv') /\
  (average_processing_time (stats sv') * inject_Z (successful_transcriptions (stats sv'))
   == average_processing_time (stats sv) * inject_Z (successful_transcriptions (stats sv))
      + success_time_total reqs rs)%Q.
Proof.
  revert sv. induction reqs as [|[file t] reqs IH]; intros sv Hs; simpl.
  { split; [lia|]. split; [lia|]. split; [lia|]. ring. }
  pose proof (handle_request_stats session tokens sv file t) as Hst.
  destruct (handle_request session tokens sv file t) as [[evs r] sv'].
  destruct (record_request_props (stats sv) (if r then false else true) t Hs)
    as (R1 & R2 & R3 & R4).
  rewrite <- Hst in R1, R2, R3, R4.
  pose proof (IH sv' R3) as IH'.
  destruct (serve session tokens sv' reqs) as [[evs' rs] sv''].
  destruct IH' as (I1 & I2 & I3 & I4).
  split; [lia|]. split; [lia|]. split; [lia|].
  rewrite I4, R4. destruct r; simpl; ring.
Qed.

(** Extra X19: after any sequence of requests from a fresh start,
    [total_requests] counts them, it equals successful plus failed, and
    the average processing time times the number of successes is the
    total processing time of the successful requests. *)
Theorem serve_stats (session : onnx_session) (tokens : token_file) (reqs : list (upload * Q)) :
  let '(_, rs, sv) := serve session tokens service0 reqs in
  total_requests (stats sv) = Z.of_nat (length reqs) /\
  total_requests (stats sv)
  = successful_transcriptions (stats sv) + failed_transcriptions (stats sv) /\
  (average_processing_time (stats sv) * inject_Z (successful_transcriptions (stats sv))
   == success_time_total reqs rs)%Q.
Proof.
  pose proof (serve_stats_gen session tokens reqs service0 ltac:(simpl; lia)) as H.
  destruct (serve session tokens service0 reqs) as [[evs rs] sv].
  destruct H as (H1 & H2 & _ & H4). simpl in H1, H2, H4.
  split; [lia|]. split; [lia|]. rewrite H4. ring.
Qed.

(* ---- feature extraction ---- *)

Lemma n_frames_length (y : list R) : Features.n_frames y = (1 + length y / 160)%nat.
Proof.
  unfold Features.n_frames, Features.y_pad, Features.N_FFT, Features.HOP_LENGTH.
  rewrite !length_app, !repeat_length.
  f_equal. f_equal. lia.
Qed.

(** Extra X20: for n samples the features have T = 1 + n // 160 time
    steps, both in the time length of the pipeline and in every row of
    the numeric features. *)
Theorem preprocess_audio_time_steps (samples : list R) :
  snd (preprocess_audio (AudioOK (N.of_nat (length samples))))
  = inr (N.of_nat (1 + length samples / 160)) /\
  forall i, (i < 80)%nat ->
    length (nth i (hd [] (Features.preprocess_audio samples)) [])
    = (1 + length samples / 160)%nat.
Proof.
  split.
  - rewrite Nat2N.inj_add, Nat2N.inj_div. reflexivity.
  - intros i Hi. unfold Features.preprocess_audio, Features.normalize_rows. cbn [hd].
    rewrite nth_map_nil by reflexivity. rewrite length_map.
    rewrite <- n_frames_length.
    pose proof (log_mel_row_lengths samples) as H. rewrite List.Forall_forall in H.
    apply H, nth_In. rewrite length_log_mel. unfold Features.N_MELS. lia.
Qed.

Section FeatureRange.
Local Open Scope R_scope.
Import Features.

Lemma fold_left_Rmax_init (xs : list R) (x0 : R) : x0 <= fold_left Rmax xs x0.
Proof.
  revert x0. induction xs as [|x xs IH]; intros x0; simpl; [lra|].
  eapply Rle_trans; [apply Rmax_l|]. apply IH.
Qed.

Lemma fold_left_Rmax_ge (xs : list R) (x0 y : R) :
  In y (x0 :: xs) -> y <= fold_left Rmax xs x0.
Proof.
  revert x0. induction xs as [|x xs IH]; intros x0 Hin.
  - destruct Hin as [Hy|[]]. subst. simpl. lra.
  - simpl. destruct Hin as [Hy|[Hy|Hin]].
    + subst. eapply Rle_trans; [apply Rmax_l|]. apply fold_left_Rmax_init.
    + subst. eapply Rle_trans; [apply (Rmax_r x0)|]. apply fold_left_Rmax_init.
    + apply IH. right. exact Hin.
Qed.

Lemma fold_left_Rmax_in (xs : list R) (x0 : R) : In (fold_left Rmax xs x0) (x0 :: xs).
Proof.
  revert x0. induction xs as [|x xs IH]; intros x0; simpl; [auto|].
  destruct (IH (Rmax x0 x)) as [H|H].
  - rewrite <- H. destruct (Rmax_Rle x0 x (Rmax x0 x)) as [_ _].
    unfold Rmax. destruct (Rle_dec x0 x); auto.
  - auto.
Qed.

Lemma mat_max_ge (S : list (list R)) (x : R) : In x (concat S) -> x <= mat_max S.
Proof.
  unfold mat_max. destruct (concat S) as [|y ys]; [intros []|].
  intros Hin. apply fold_left_Rmax_ge, Hin.
Qed.

Lemma mat_max_in (S : list (list R)) : concat S <> [] -> In (mat_max S) (concat S).
Proof.
  unfold mat_max. destruct (concat S) as [|y ys]; [done|]. intros _. apply fold_left_Rmax_in.
Qed.

Lemma log10_le (x y : R) : 0 < x -> x <= y -> log10 x <= log10 y.
Proof.
  intros Hx Hxy. unfold log10, Rdiv. apply Rmult_le_compat_r.
  - left. apply Rinv_0_lt_compat. rewrite <- ln_1. apply ln_increasing; lra.
  - destruct Hxy as [Hlt|<-]; [left; apply ln_increasing; lra|lra].
Qed.

Lemma AMIN_pos : 0 < AMIN.
Proof. unfold AMIN. lra. Qed.

Theorem power_to_db_range (S : list (list R)) :
  concat S <> [] ->
  (forall row x, In row (power_to_db S) -> In x row -> - TOP_DB <= x <= 0) /\
  In 0 (concat (power_to_db S)).
Proof.
  intros Hne.
  set (ref := mat_max S).
  set (g := fun x => 10 * log10 (Rmax AMIN x) - 10 * log10 (Rmax AMIN ref)).
  set (L := map (map g) S).
  assert (HgL : forall x, In x (concat L) -> x <= 0).
  { intros x Hx. unfold L in Hx. rewrite <- concat_map in Hx.
    apply in_map_iff in Hx as [y [<- Hy]]. unfold g.
    assert (log10 (Rmax AMIN y) <= log10 (Rmax AMIN ref)).
    { apply log10_le; [eapply Rlt_le_trans; [apply AMIN_pos|apply Rmax_l]|].
      apply Rle_max_compat_l, mat_max_ge, Hy. }
    lra. }
  assert (H0 : In 0 (concat L)).
  { unfold L. rewrite <- concat_map. replace 0 with (g ref) by (unfold g; ring).
    apply in_map, mat_max_in, Hne. }
  assert (Htop : mat_max L = 0).
  { apply Rle_antisym.
    - apply HgL, mat_max_in. intros He. rewrite He in H0. done.
    - apply mat_max_ge, H0. }
  assert (Hpd : power_to_db S = map (map (fun x => Rmax x (mat_max L - TOP_DB))) L) by reflexivity.
  rewrite Hpd, Htop. split.
  - intros row x Hrow Hx. apply in_map_iff in Hrow as [r [<- Hr]].
    apply in_map_iff in Hx as [y [<- Hy]].
    assert (Hy0 : y <= 0) by (apply HgL; apply in_concat; eauto).
    unfold TOP_DB. split; [eapply Rle_trans; [|apply Rmax_r]; lra|]. apply Rmax_lub; lra.
  - rewrite <- concat_map. apply in_map_iff. exists 0. split; [|exact H0].
    unfold TOP_DB. apply Rmax_left. lra.
Qed.

Lemma melspectrogram_nonempty (y : list R) : concat (melspectrogram y) <> [].
Proof.
  unfold melspectrogram, mel_basis, N_MELS. cbn [seq map concat].
  unfold n_frames at 1. cbn [seq map app]. discriminate.
Qed.

(** Extra X21: every value of the dB mel spectrogram lies in [-80, 0],
    and 0 is reached (at the spectrogram's maximum). *)
Theorem log_mel_range (samples : list R) :
  (forall row x, In row (log_mel samples) -> In x row -> - TOP_DB <= x <= 0) /\
  In 0 (concat (log_mel samples)).
Proof.
  apply power_to_db_range, melspectrogram_nonempty.
Qed.

End FeatureRange.

(* ---- witnesses ---- *)

Lemma transcribe_endpoint_rejects_non_audio_witness :
  content_type_ok text_upload = false /\
  transcribe_endpoint blank_session demo_tokens None text_upload
  = ([], inl (ExcHTTP 400 (s2py "Invalid file type. Only audio files are supported."))).
Proof.
  split; [reflexivity|].
  apply (transcribe_endpoint_rejects_non_audio blank_session demo_tokens None text_upload).
  reflexivity.
Defined.

Lemma transcribe_endpoint_rejects_non_wav_witness :
  filename_ok mp3_upload = false /\
  transcribe_endpoint blank_session demo_tokens None mp3_upload
  = ([], inl (ExcHTTP 400 (s2py "Only .wav files are supported"))).
Proof.
  split; [reflexivity|].
  apply (transcribe_endpoint_rejects_non_wav blank_session demo_tokens None mp3_upload);
    reflexivity.
Defined.

Lemma transcribe_endpoint_rejects_large_witness :
  10 * 1024 * 1024 < content_len large_upload /\
  transcribe_endpoint blank_session demo_tokens None large_upload
  = ([], inl (ExcHTTP 400 (s2py "File too large. Maximum size is 10MB."))).
Proof.
  split; [simpl; lia|].
  apply (transcribe_endpoint_rejects_large blank_session demo_tokens None large_upload);
    [reflexivity|reflexivity|simpl; lia].
Defined.

Lemma transcribe_endpoint_undecodable_witness :
  upload_audio (wav_upload AudioBad) = AudioBad /\
  transcribe_endpoint blank_session demo_tokens None (wav_upload AudioBad)
  = ([EvAudioLoad], inl (ExcHTTP 400 (s2py "Audio duration must be between 5-10 seconds"))).
Proof.
  split; [reflexivity|].
  apply (transcribe_endpoint_undecodable blank_session demo_tokens None (wav_upload AudioBad));
    [reflexivity|reflexivity|simpl; lia|reflexivity].
Defined.

Lemma transcribe_endpoint_accepts_witness :
  (5 <= audio_duration 96000 /\ audio_duration 96000 <= 10)%Q /\
  fst (transcribe_endpoint failing_session demo_tokens None (wav_upload (AudioOK 96000)))
  = [EvAudioLoad; EvPreprocess; EvAudioLoad; EvInfer] /\
  exists detail,
    snd (transcribe_endpoint failing_session demo_tokens None (wav_upload (AudioOK 96000)))
    = inl (ExcHTTP 500 detail).
Proof.
  assert (Hd : (5 <= audio_duration 96000 /\ audio_duration 96000 <= 10)%Q).
  { split; apply Qle_bool_iff; reflexivity. }
  split; [exact Hd|].
  destruct (transcribe_endpoint_accepts failing_session demo_tokens None
              (wav_upload (AudioOK 96000)) 96000 eq_refl eq_refl
              ltac:(simpl; lia) eq_refl Hd) as (Hf & _ & He).
  split; [exact Hf|]. apply (He ExcInference). reflexivity.
Defined.

Lemma transcribe_endpoint_http_errors_witness :
  snd (transcribe_endpoint failing_session demo_tokens None (wav_upload (AudioOK 96000)))
  = inl (ExcHTTP 500 INTERNAL_MSG) /\
  exists detail, ExcHTTP 500 INTERNAL_MSG = ExcHTTP 400 detail
                 \/ ExcHTTP 500 INTERNAL_MSG = ExcHTTP 500 detail.
Proof.
  assert (H : snd (transcribe_endpoint failing_session demo_tokens None
                     (wav_upload (AudioOK 96000))) = inl (ExcHTTP 500 INTERNAL_MSG))
    by reflexivity.
  split; [exact H|].
  apply (transcribe_endpoint_http_errors failing_session demo_tokens None _ _ H).
Defined.

Lemma asr_transcribe_output_normalized_witness :
  snd (asr_transcribe blank_session demo_tokens None (AudioOK 96000))
  = inr (NO_SPEECH, Some (load_token_map demo_tokens)) /\
  NO_SPEECH <> [] /\ post_process_text NO_SPEECH = NO_SPEECH.
Proof.
  assert (H : snd (asr_transcribe blank_session demo_tokens None (AudioOK 96000))
              = inr (NO_SPEECH, Some (load_token_map demo_tokens))) by reflexivity.
  split; [exact H|].
  apply (asr_transcribe_output_normalized blank_session demo_tokens None _ _ _ H).
Defined.

Lemma asr_transcribe_failure_propagates_witness :
  failing_session (1 + 96000 / 160)%N = None /\
  asr_transcribe failing_session demo_tokens None (AudioOK 96000)
  = ([EvPreprocess; EvAudioLoad; EvInfer], inl ExcInference).
Proof.
  split; [reflexivity|].
  apply (asr_transcribe_failure_propagates failing_session demo_tokens None (AudioOK 96000)).
  reflexivity.
Defined.

Lemma validate_then_preprocess_frames_witness :
  snd (validate_audio (AudioOK 96000)) = inr true /\
  exists T, snd (preprocess_audio (AudioOK 96000)) = inr T /\ (501 <= T <= 1001)%N.
Proof.
  assert (H : snd (validate_audio (AudioOK 96000)) = inr true) by reflexivity.
  split; [exact H|].
  apply (validate_then_preprocess_frames (AudioOK 96000) H).
Defined.
